(** * Macro Radar: the signal engine of [cloud_app.py]

    A shallow embedding of [calculate_signal] and of the nested [get_status],
    together with the part of the pandas API they go through
    ([Series.rolling(..).mean()], [Series.rolling(..).corr(..)],
    [DataFrame.__getitem__], [DataFrame.__setitem__] and
    [DataFrame.apply(.., axis=1)]).

    Numbers.  A Python float is modelled as a real number or the NaN
    sentinel, and NaN behaves as in IEEE 754 (it propagates through
    arithmetic and every ordered comparison with it is false).  Arithmetic
    on the numbers is that of the reals.  This is an idealisation of
    binary64: the code rounds every result, can overflow to an infinity,
    and pandas maintains its rolling sums incrementally, so the number the
    code stores in a rolling mean or correlation is in general only close to
    the one computed here.  Where a statement below gives the value of an
    arithmetic result, it is the value in this idealisation; the statements
    on which values are defined, on how the cells of a row compare and on
    how frames are built and changed do not depend on it.

    State.  [calculate_signal] assigns columns on the frame object it is
    given and returns that same object, so its body is a computation over the
    mutable frame, and a call is a step on a store of frame objects.

    Fetching.  [get_market_data] and [get_realtime_btc_price] are functions
    of what the two providers hand back ([web.DataReader], [yf.download]): a
    frame over a date index, or an exception.  Both catch [Exception], so
    inside a [try] only the fact that something was raised matters.  The
    part of pandas they go through ([ffill], [dropna], series arithmetic,
    [df[[c]]], the inner merge on the index, [rename], [iloc]) is modelled on
    frames whose dates are day numbers. *)

From Stdlib Require Import Reals Lra Lia.
From stdpp Require Import base option list strings gmap.

(** ** Floats *)

Inductive float : Type :=
  | NaN
  | Fin (x : R).

(** Order and equality of reals are decided by the excluded middle. *)
#[export] Instance Rgt_decision (x y : R) : Decision (x > y)%R := Rgt_dec x y.
#[export] Instance Rlt_decision (x y : R) : Decision (x < y)%R := Rlt_dec x y.
#[export] Instance Req_decision : EqDecision R := Req_dec_T.

(** [a > b] on floats: false as soon as one side is NaN. *)
Definition float_gt (a b : float) : bool :=
  match a, b with
  | Fin x, Fin y => bool_decide (x > y)%R
  | _, _ => false
  end.

Definition float_sub (a b : float) : float :=
  match a, b with
  | Fin x, Fin y => Fin (x - y)
  | _, _ => NaN
  end.

Definition float_mul (a b : float) : float :=
  match a, b with
  | Fin x, Fin y => Fin (x * y)
  | _, _ => NaN
  end.

(** [a ** 0.5]: NaN below zero. *)
Definition float_sqrt (a : float) : float :=
  match a with
  | Fin x => if decide (x < 0)%R then NaN else Fin (sqrt x)
  | NaN => NaN
  end.

(** Division under [np.errstate(all="ignore")]: [0 / 0] is NaN.  A non-zero
    numerator over zero would be an infinity, which [float] does not carry.
    The engine divides twice, both times inside the rolling correlation: the
    count ratio [n / (n - 1)] has [n = 30] on every window that yields a
    value, and in the arithmetic of the reals the numerator of the last
    division is zero whenever its denominator is ([corr_numerator_zero]
    below); with rounding it need not be, and the code's value is then an
    infinity.  The fetch divides by the constant 1000, and the live price by
    a previous close that [py_div] has checked not to be zero. *)
Definition float_div (a b : float) : float :=
  match a, b with
  | Fin x, Fin y => if decide (y = 0)%R then NaN else Fin (x / y)
  | _, _ => NaN
  end.

Definition finite (a : float) : option R :=
  match a with
  | Fin x => Some x
  | NaN => None
  end.

(** ** Exceptions and results *)

(** What ends a run early.  [KeyError] and [TypeError] are Python's.
    [Unmodelled] is not an exception: it marks a run that goes where this
    model does not follow it, a rolling window over a column of Python
    objects.  There pandas first asks [float()] of every object, so a column
    of texts that read as numbers is averaged like a numeric one; what is
    raised otherwise, and after which assignments, depends on the texts.
    Nothing is stated below about a run that ends in [Unmodelled]. *)
Inductive exn : Type :=
  | KeyError (key : string)
  | TypeError
  | Unmodelled.

Inductive result (A : Type) : Type :=
  | Ok (a : A)
  | Raise (e : exn).
Arguments Ok {A} a.
Arguments Raise {A} e.

Definition result_bind {A B} (r : result A) (k : A → result B) : result B :=
  match r with
  | Ok a => k a
  | Raise e => Raise e
  end.

#[export] Instance result_mbind : MBind result := λ A B k r, result_bind r k.
#[export] Instance result_mret : MRet result := λ A a, Ok a.

Fixpoint mapR {A B} (f : A → result B) (l : list A) : result (list B) :=
  match l with
  | [] => Ok []
  | a :: l' => b ← f a; bs ← mapR f l'; Ok (b :: bs)
  end.

(** ** Frames *)

Inductive cell : Type :=
  | CFloat (x : float)
  | CStr (s : string).

(** A column is a typed array: [float64] or [object] (here: strings). *)
Inductive column : Type :=
  | FloatCol (xs : list float)
  | ObjCol (ss : list string).

Definition col_length (c : column) : nat :=
  match c with
  | FloatCol xs => length xs
  | ObjCol ss => length ss
  end.

Definition col_cell (c : column) (i : nat) : option cell :=
  match c with
  | FloatCol xs => CFloat <$> xs !! i
  | ObjCol ss => CStr <$> ss !! i
  end.

(** The index holds the dates (as day numbers); the columns keep their
    insertion order. *)
Record DataFrame : Type := mkDataFrame {
  index : list Z;
  columns : list (string * column)
}.

Fixpoint col_lookup (c : string) (cols : list (string * column)) : option column :=
  match cols with
  | [] => None
  | (k, v) :: cols' => if decide (k = c) then Some v else col_lookup c cols'
  end.

(** Assigning to an existing label replaces the column where it stands; a
    new label is appended. *)
Fixpoint col_set (c : string) (v : column) (cols : list (string * column))
  : list (string * column) :=
  match cols with
  | [] => [(c, v)]
  | (k, w) :: cols' =>
      if decide (k = c) then (k, v) :: cols' else (k, w) :: col_set c v cols'
  end.

Definition col_names (d : DataFrame) : list string := (columns d).*1.

(** What pandas maintains for every frame: unique labels, and each column as
    long as the index. *)
Definition wf (d : DataFrame) : Prop :=
  NoDup (col_names d) ∧
  Forall (λ kv, col_length kv.2 = length (index d)) (columns d).

(** ** Computations on the frame bound to [df] *)

Definition Df (A : Type) : Type := DataFrame → result A * DataFrame.

Definition ret {A} (a : A) : Df A := λ d, (Ok a, d).
Definition lift {A} (r : result A) : Df A := λ d, (r, d).

Definition bind {A B} (m : Df A) (k : A → Df B) : Df B :=
  λ d, match m d with
       | (Ok a, d') => k a d'
       | (Raise e, d') => (Raise e, d')
       end.

#[export] Instance Df_mbind : MBind Df := λ A B k m, bind m k.
#[export] Instance Df_mret : MRet Df := λ A a, ret a.

(** [df[c]] *)
Definition getitem (c : string) : Df column :=
  λ d, match col_lookup c (columns d) with
       | Some v => (Ok v, d)
       | None => (Raise (KeyError c), d)
       end.

(** [df[c] = v] for a series [v] built from the frame's own columns: it
    carries the frame's index and is stored as it is. *)
Definition setitem (c : string) (v : column) : Df unit :=
  λ d, (Ok (), mkDataFrame (index d) (col_set c v (columns d))).

(** ** Rolling windows *)

Fixpoint Rsum (l : list R) : R :=
  match l with
  | [] => 0
  | x :: l' => x + Rsum l'
  end.

(** The rows [max(0, i - w + 1) .. i] of a series. *)
Definition window {A} (w i : nat) (xs : list A) : list A :=
  drop (S i - w) (take (S i) xs).

(** [roll_mean]: the mean of the observations (the non-NaN values) of the
    window, once there are [min_periods] of them; [rolling(window=w)] leaves
    [min_periods] at [w].  pandas keeps one running sum along the series,
    adding the value that enters the window and taking out the one that
    leaves it; in the arithmetic of the reals that sum is the sum of the
    window, which is what stands here. *)
Definition mean_obs (minp : nat) (obs : list R) : float :=
  if decide (minp ≤ length obs ∧ 0 < length obs)
  then Fin (Rsum obs / INR (length obs))
  else NaN.

Definition roll_mean (w : nat) (xs : list float) : list float :=
  (λ i, mean_obs w (omap finite (window w i xs))) <$> seq 0 (length xs).

(** [roll_var] with [ddof]: the sum of squared deviations from the window's
    mean over [nobs - ddof]. *)
Definition var_obs (minp ddof : nat) (obs : list R) : float :=
  if decide (minp ≤ length obs ∧ ddof < length obs)
  then
    let m := (Rsum obs / INR (length obs))%R in
    Fin (Rsum ((λ x, (x - m) * (x - m))%R <$> obs)
         / (INR (length obs) - INR ddof))
  else NaN.

Definition pair_obs (p : float * float) : option (R * R) :=
  match p with
  | (Fin x, Fin y) => Some (x, y)
  | _ => None
  end.

(** One window of [Rolling.corr]: the two series are first masked to the
    rows where both are present, then
    [(mean(x*y) - mean(x)*mean(y)) * (n / (n - ddof))] is divided by
    [(var(x) * var(y)) ** 0.5], with [ddof = 1]. *)
Definition corr_obs (minp : nat) (obs : list (R * R)) : float :=
  let ddof := 1 in
  let x := obs.*1 in
  let y := obs.*2 in
  let mean_x_y := mean_obs minp (zip_with Rmult x y) in
  let mean_x := mean_obs minp x in
  let mean_y := mean_obs minp y in
  let count_x_y := INR (length obs) in
  let x_var := var_obs minp ddof x in
  let y_var := var_obs minp ddof y in
  let numerator :=
    float_mul (float_sub mean_x_y (float_mul mean_x mean_y))
              (float_div (Fin count_x_y) (Fin (count_x_y - INR ddof))) in
  let denominator := float_sqrt (float_mul x_var y_var) in
  float_div numerator denominator.

Definition roll_corr (w : nat) (xs ys : list float) : list float :=
  (λ i, corr_obs w (omap pair_obs (window w i (zip xs ys))))
    <$> seq 0 (length xs).

(** The rolling aggregations, on numeric series.  A column of objects is
    outside the model (see [Unmodelled]). *)
Definition rolling_mean (w : nat) (c : column) : result column :=
  match c with
  | FloatCol xs => Ok (FloatCol (roll_mean w xs))
  | ObjCol _ => Raise Unmodelled
  end.

Definition rolling_corr (w : nat) (c other : column) : result column :=
  match c, other with
  | FloatCol xs, FloatCol ys => Ok (FloatCol (roll_corr w xs ys))
  | _, _ => Raise Unmodelled
  end.

(** ** Rows and [get_status] *)

(** A row handed to the function of [apply(axis=1)]: [row[c]]. *)
Definition row : Type := string → result cell.

Definition row_at (d : DataFrame) (i : nat) : row :=
  λ c, match col_lookup c (columns d) with
       | Some col =>
           match col_cell col i with
           | Some v => Ok v
           | None => Raise (KeyError c)
           end
       | None => Raise (KeyError c)
       end.

(** Python's [>] on two cells: floats and strings compare among themselves,
    a string against a float is a TypeError. *)
Definition cell_gt (a b : cell) : result bool :=
  match a, b with
  | CFloat x, CFloat y => Ok (float_gt x y)
  | CStr s, CStr t => Ok (String.ltb t s)
  | _, _ => Raise TypeError
  end.

Definition get_status (r : row) : result string :=
  a ← r "Net_Liquidity"; b ← r "Liq_SMA_20";
  liq_trend_up ← cell_gt a b;
  c ← r "BTC_Price"; d ← r "BTC_SMA_20";
  btc_trend_up ← cell_gt c d;
  e ← r "Correlation";
  high_corr ← cell_gt e (CFloat (Fin (1 / 2)));
  Ok (if liq_trend_up && btc_trend_up && high_corr then "🟢 STRONG LONG"
      else if negb liq_trend_up && btc_trend_up then "🔴 DIVERGENCE (Risk)"
      else if liq_trend_up && negb btc_trend_up then "🟡 BUY OPPORTUNITY"
      else "⚪ NEUTRAL").

(** [df.apply(f, axis=1)]: [f] on every row in index order, collected in a
    series of objects (an empty one on a frame without rows). *)
Definition apply_axis1 (f : row → result string) : Df column :=
  λ d, match mapR (λ i, f (row_at d i)) (seq 0 (length (index d))) with
       | Ok ss => (Ok (ObjCol ss), d)
       | Raise e => (Raise e, d)
       end.

(** ** [calculate_signal] *)

Definition calculate_signal : Df unit :=
  liq ← getitem "Net_Liquidity";
  sma ← lift (rolling_mean 20 liq);
  setitem "Liq_SMA_20" sma;;
  btc ← getitem "BTC_Price";
  sma ← lift (rolling_mean 20 btc);
  setitem "BTC_SMA_20" sma;;
  liq ← getitem "Net_Liquidity";
  btc ← getitem "BTC_Price";
  corr ← lift (rolling_corr 30 liq btc);
  setitem "Correlation" corr;;
  sig ← apply_axis1 get_status;
  setitem "Signal" sig.

(** ** Calls: a store of frame objects *)

Definition loc : Type := positive.

(** [calculate_signal(p)]: the body runs on the object behind [p], every
    assignment lands in that object, and the reference [p] itself is
    returned ([return df]).  [None] when [p] names no frame of the store. *)
Definition call_calculate_signal (p : loc) (h : gmap loc DataFrame)
  : option (result loc * gmap loc DataFrame) :=
  d ← h !! p;
  let '(r, d') := calculate_signal d in
  Some (_ ← r; Ok p, <[p := d']> h).

(** ** Downloaded price frames and [get_realtime_btc_price] *)

(** What [yf.download] hands back: a date index and numeric columns, whose
    labels are plain names or, in recent versions, pairs (field, ticker). *)
Inductive yf_labels : Type :=
  | PlainLabels (cols : list (string * list float))
  | MultiLabels (cols : list ((string * string) * list float)).

Record yf_frame : Type := mk_yf_frame {
  yf_index : list Z;
  yf_columns : yf_labels
}.

(** [data.columns = data.columns.get_level_values(0)] when the labels are a
    MultiIndex; otherwise the frame as it is. *)
Definition level0_columns (y : yf_frame) : list (string * column) :=
  match yf_columns y with
  | PlainLabels cols => (λ kv, (kv.1, FloatCol kv.2)) <$> cols
  | MultiLabels cols => (λ kv, (kv.1.1, FloatCol kv.2)) <$> cols
  end.

Definition flattened (y : yf_frame) : DataFrame :=
  mkDataFrame (yf_index y) (level0_columns y).

(** [data[c]] on a frame whose labels may repeat: a series when exactly one
    column carries the label, a frame when several do, KeyError when none. *)
Inductive selection : Type :=
  | NoColumn
  | OneColumn (c : column)
  | ManyColumns.

Definition select_label (c : string) (cols : list (string * column)) : selection :=
  match filter (λ kv, kv.1 = c) cols with
  | [] => NoColumn
  | [kv] => OneColumn kv.2
  | _ => ManyColumns
  end.

(** [series.iloc[-k]]: the [k]-th value from the end; IndexError ([None])
    when the series is shorter. *)
Definition iloc_neg (k : nat) (xs : list float) : option float :=
  if decide (0 < k ∧ k ≤ length xs) then xs !! (length xs - k) else None.

(** [float(data['Close'].iloc[-k])].  [None] stands for an exception: no
    such column (KeyError), several of them (the row of a frame is not
    convertible), or too few rows (IndexError). *)
Definition close_from_end (k : nat) (data : DataFrame) : option float :=
  match select_label "Close" (columns data) with
  | OneColumn (FloatCol xs) => iloc_neg k xs
  | _ => None
  end.

(** [a / b] on Python floats: ZeroDivisionError ([None]) when [b] is zero,
    NaN when an operand is NaN.  (The quotient of two numbers is here their
    quotient as reals; Python's is rounded and can overflow to an
    infinity.) *)
Definition py_div (a b : float) : option float :=
  match b with
  | Fin y => if decide (y = 0)%R then None else Some (float_div a b)
  | NaN => Some NaN
  end.

(** The body of the [try].  [download] is the outcome of [yf.download]
    ([None]: it raised).  [None] for the whole body: some exception. *)
Definition realtime_try (download : option yf_frame)
  : option (option float * option float) :=
  y ← download;
  let data := flattened y in
  if decide (2 ≤ length (index data)) then
    current_price ← close_from_end 1 data;
    prev_price ← close_from_end 2 data;
    q ← py_div (float_sub current_price prev_price) prev_price;
    let change_24h := float_mul q (Fin 100) in
    Some (Some current_price, Some change_24h)
  else if decide (length (index data) = 1) then
    current_price ← close_from_end 1 data;
    Some (Some current_price, Some (Fin 0))
  else Some (None, None).

(** [except Exception: return None, None] *)
Definition get_realtime_btc_price (download : option yf_frame)
  : option float * option float :=
  match realtime_try download with
  | Some r => r
  | None => (None, None)
  end.

(** ** [get_market_data] *)

(** [ffill]: a NaN takes the last value seen before it in its column (it
    stays NaN when there is none). *)
Fixpoint ffill_from (last : float) (xs : list float) : list float :=
  match xs with
  | [] => []
  | x :: xs' =>
      let v := match x with NaN => last | Fin _ => x end in
      v :: ffill_from v xs'
  end.

Definition ffill_col (c : column) : column :=
  match c with
  | FloatCol xs => FloatCol (ffill_from NaN xs)
  | ObjCol ss => ObjCol ss
  end.

Definition ffill (d : DataFrame) : DataFrame :=
  mkDataFrame (index d) ((λ kv : string * column, (kv.1, ffill_col kv.2)) <$> columns d).

(** The rows at the positions [pos], in that order. *)
Definition gather {A} (pos : list nat) (xs : list A) : list A :=
  omap (λ i, xs !! i) pos.

Definition gather_col (pos : list nat) (c : column) : column :=
  match c with
  | FloatCol xs => FloatCol (gather pos xs)
  | ObjCol ss => ObjCol (gather pos ss)
  end.

Definition take_rows (pos : list nat) (d : DataFrame) : DataFrame :=
  mkDataFrame (gather pos (index d))
    ((λ kv : string * column, (kv.1, gather_col pos kv.2)) <$> columns d).

(** [dropna]: the rows without a NaN in any column. *)
Definition cell_notna (c : column) (i : nat) : bool :=
  match c with
  | FloatCol xs => match xs !! i with Some NaN => false | _ => true end
  | ObjCol _ => true
  end.

Definition row_notna (d : DataFrame) (i : nat) : bool :=
  forallb (λ kv : string * column, cell_notna kv.2 i) (columns d).

Definition dropna (d : DataFrame) : DataFrame :=
  take_rows (filter (λ i, row_notna d i = true) (seq 0 (length (index d)))) d.

(** Arithmetic on two series of one frame, and on a series and a number;
    [None] is the TypeError on a column of strings. *)
Definition col_sub (a b : column) : option column :=
  match a, b with
  | FloatCol xs, FloatCol ys => Some (FloatCol (zip_with float_sub xs ys))
  | _, _ => None
  end.

Definition col_div_scalar (a : column) (k : R) : option column :=
  match a with
  | FloatCol xs => Some (FloatCol ((λ x, float_div x (Fin k)) <$> xs))
  | ObjCol _ => None
  end.

(** [df[[c]]]: the frame of the columns labelled [c]; KeyError ([None])
    when there is none. *)
Definition select_columns (c : string) (d : DataFrame) : option DataFrame :=
  match filter (λ kv : string * column, kv.1 = c) (columns d) with
  | [] => None
  | cols => Some (mkDataFrame (index d) cols)
  end.

(** [pd.merge(l, r, left_index=True, right_index=True, how='inner')] for
    date-sorted indexes: every pair of a left row and a right row with the
    same date, in the order of the left rows.  (The two frames merged here
    share no label, so no label is suffixed.) *)
Definition positions_of (t : Z) (idx : list Z) : list nat :=
  filter (λ j, idx !! j = Some t) (seq 0 (length idx)).

Fixpoint join_from (i : nat) (li ri : list Z) : list (nat * nat) :=
  match li with
  | [] => []
  | t :: li' => ((λ j, (i, j)) <$> positions_of t ri) ++ join_from (S i) li' ri
  end.

Definition merge_inner (l r : DataFrame) : DataFrame :=
  let ps := join_from 0 (index l) (index r) in
  mkDataFrame (gather ps.*1 (index l))
    (((λ kv : string * column, (kv.1, gather_col ps.*1 kv.2)) <$> columns l)
     ++ ((λ kv : string * column, (kv.1, gather_col ps.*2 kv.2)) <$> columns r)).

(** [df.rename(columns={a: b}, inplace=True)] *)
Definition rename_column (a b : string) (d : DataFrame) : DataFrame :=
  mkDataFrame (index d)
    ((λ kv : string * column, (if decide (kv.1 = a) then b else kv.1, kv.2))
       <$> columns d).

(** The first [try]: the FRED frame, forward-filled, cleaned, with the net
    liquidity column added.  [fred] is the outcome of [web.DataReader]
    ([None]: it raised); [None] for the body: some exception. *)
Definition fred_try (fred : option DataFrame) : option DataFrame :=
  fred_data ← fred;
  let fred_data := dropna (ffill fred_data) in
  walcl ← col_lookup "WALCL" (columns fred_data);
  wtregen ← col_lookup "WTREGEN" (columns fred_data);
  diff ← col_sub walcl wtregen;
  rrp ← col_lookup "RRPONTSYD" (columns fred_data);
  diff ← col_sub diff rrp;
  net ← col_div_scalar diff 1000;
  Some (mkDataFrame (index fred_data) (col_set "Net_Liquidity" net (columns fred_data))).

(** The second [try]: the price download with plain labels, cut down to its
    [Close] column ([tz_localize(None)] leaves every date as it is). *)
Definition btc_try (btc : option yf_frame) : option DataFrame :=
  btc_data ← btc;
  select_columns "Close" (flattened btc_data).

(** What a call amounts to: a frame, [None] after a reported failure, or an
    exception that escapes. *)
Inductive fetched : Type :=
  | Fetched (df : DataFrame)
  | ReturnedNone
  | Escaped.

Definition get_market_data (fred : option DataFrame) (btc : option yf_frame)
  : fetched :=
  match fred_try fred with
  | None => ReturnedNone
  | Some fred_data =>
      match btc_try btc with
      | None => ReturnedNone
      | Some btc_df =>
          match select_columns "Net_Liquidity" fred_data with
          | None => Escaped
          | Some liq_df =>
              Fetched (rename_column "Close" "BTC_Price" (merge_inner liq_df btc_df))
          end
      end
  end.

(** Every column is as long as the index. *)
Definition aligned (d : DataFrame) : Prop :=
  Forall (λ kv, col_length kv.2 = length (index d)) (columns d).

(** The positions of the rows without a NaN. *)
Definition complete_rows (d : DataFrame) : list nat :=
  filter (λ i, row_notna d i = true) (seq 0 (length (index d))).

(** The forward-filled, cleaned FRED frame. *)
Definition cleaned (d : DataFrame) : DataFrame := dropna (ffill d).

(** A frame of numeric columns only. *)
Definition numeric (d : DataFrame) : Prop :=
  Forall (λ kv, ∃ xs, kv.2 = FloatCol xs) (columns d).

(** The arithmetic of the net liquidity on three series. *)
Definition net_liquidity (w t r : list float) : list float :=
  (λ x, float_div x (Fin 1000)) <$> zip_with float_sub (zip_with float_sub w t) r.

(** The pairs of positions the merge joins, the cleaned values of a FRED
    series, and the frame a successful call returns. *)
Definition joined (d : DataFrame) (y : yf_frame) : list (nat * nat) :=
  join_from 0 (index (cleaned d)) (yf_index y).

Definition clean_series (d : DataFrame) (xs : list float) : list float :=
  gather (complete_rows (ffill d)) (ffill_from NaN xs).

Definition fetched_frame (d : DataFrame) (y : yf_frame) (w t r cs : list float)
  : DataFrame :=
  mkDataFrame (gather (joined d y).*1 (index (cleaned d)))
    [("Net_Liquidity",
      FloatCol (gather (joined d y).*1
                  (net_liquidity (clean_series d w) (clean_series d t)
                     (clean_series d r))));
     ("BTC_Price", FloatCol (gather (joined d y).*2 cs))].

(** ** The script: loading the data

    [raw_df = get_market_data(...)]; when it is not None,
    [df = calculate_signal(raw_df)] and [latest = df.iloc[-1]], the row the
    indicator cards are drawn from. *)
Inductive loaded : Type :=
  | NothingLoaded
  | FetchRaised
  | EngineRaised (e : exn)
  | NoLatestRow
  | Latest (df : DataFrame) (latest : row).

Definition load (fred : option DataFrame) (btc : option yf_frame) : loaded :=
  match get_market_data fred btc with
  | ReturnedNone => NothingLoaded
  | Escaped => FetchRaised
  | Fetched raw_df =>
      match calculate_signal raw_df with
      | (Raise e, _) => EngineRaised e
      | (Ok _, df) =>
          match length (index df) with
          | 0 => NoLatestRow
          | S n => Latest df (row_at df n)
          end
      end
  end.

(** ** Stages of a run *)

(** The frame once the three numeric indicators are assigned. *)
Definition with_indicators (d : DataFrame) (xs ys : list float) : DataFrame :=
  mkDataFrame (index d)
    (col_set "Correlation" (FloatCol (roll_corr 30 xs ys))
       (col_set "BTC_SMA_20" (FloatCol (roll_mean 20 ys))
          (col_set "Liq_SMA_20" (FloatCol (roll_mean 20 xs)) (columns d)))).

(** The frame once the signal is assigned as well. *)
Definition with_signal (d : DataFrame) (xs ys : list float) (sigs : list string)
  : DataFrame :=
  mkDataFrame (index d)
    (col_set "Signal" (ObjCol sigs) (columns (with_indicators d xs ys))).

(** The statuses of all rows, as [apply] collects them. *)
Definition statuses (d : DataFrame) (xs ys : list float) : result (list string) :=
  mapR (λ i, get_status (row_at (with_indicators d xs ys) i))
       (seq 0 (length (index d))).

(** ** The specification's vocabulary *)

(** The four values of the signal field, and the text the program shows for
    each. *)
Inductive signal : Type :=
  | STRONG_LONG
  | DIVERGENCE
  | BUY_OPPORTUNITY
  | NEUTRAL.

Definition label (s : signal) : string :=
  match s with
  | STRONG_LONG => "🟢 STRONG LONG"
  | DIVERGENCE => "🔴 DIVERGENCE (Risk)"
  | BUY_OPPORTUNITY => "🟡 BUY OPPORTUNITY"
  | NEUTRAL => "⚪ NEUTRAL"
  end.

(** The priority chain as the specification words it (steps 2 to 5). *)
Definition classify (liq_up price_up high_corr : bool) : signal :=
  if liq_up && price_up && high_corr then STRONG_LONG
  else if negb liq_up && price_up then DIVERGENCE
  else if liq_up && negb price_up then BUY_OPPORTUNITY
  else NEUTRAL.

(** [a > b] as the specification reads it on values that may be undefined:
    both are numbers, and the first is strictly the greater. *)
Definition above (a b : float) : Prop :=
  ∃ x y : R, a = Fin x ∧ b = Fin y ∧ (x > y)%R.

(** The chain as a relation: [s] is the value of the first step whose
    condition holds, NEUTRAL when none does. *)
Definition chain (liq_up price_up high_corr : Prop) (s : signal) : Prop :=
  let step2 := liq_up ∧ price_up ∧ high_corr in
  let step3 := ¬ liq_up ∧ price_up in
  let step4 := liq_up ∧ ¬ price_up in
  match s with
  | STRONG_LONG => step2
  | DIVERGENCE => ¬ step2 ∧ step3
  | BUY_OPPORTUNITY => ¬ step2 ∧ ¬ step3 ∧ step4
  | NEUTRAL => ¬ step2 ∧ ¬ step3 ∧ ¬ step4
  end.

(** The trailing [w] rows ending at and including row [i]. *)
Definition trailing {A} (w i : nat) (l : list A) : list A :=
  take w (drop (S i - w) l).

Definition mean (l : list R) : R := (Rsum l / INR (length l))%R.

(** Sum of the products of the deviations from the two means. *)
Definition codeviation (ps : list (R * R)) : R :=
  Rsum ((λ p, (p.1 - mean ps.*1) * (p.2 - mean ps.*2))%R <$> ps).

Definition covariance (ps : list (R * R)) : R :=
  (codeviation ps / (INR (length ps) - 1))%R.

(** Sample variance and sample standard deviation. *)
Definition variance (l : list R) : R :=
  (Rsum ((λ x, (x - mean l) * (x - mean l))%R <$> l) / (INR (length l) - 1))%R.

Definition stdev (l : list R) : R := sqrt (variance l).

(** Pearson's coefficient: the covariance over the product of the two
    standard deviations. *)
Definition pearson (ps : list (R * R)) : R :=
  (covariance ps / (stdev ps.*1 * stdev ps.*2))%R.

(** The list of the pairs of deviations. *)
Definition deviations (ps : list (R * R)) : list (R * R) :=
  (λ p, (p.1 - mean ps.*1, p.2 - mean ps.*2)%R) <$> ps.

(** [df.iloc[:k]]: the first [k] rows. *)
Definition take_col (k : nat) (c : column) : column :=
  match c with
  | FloatCol xs => FloatCol (take k xs)
  | ObjCol ss => ObjCol (take k ss)
  end.

Definition truncate (k : nat) (d : DataFrame) : DataFrame :=
  mkDataFrame (take k (index d))
    ((λ kv : string * column, (kv.1, take_col k kv.2)) <$> columns d).

(** [df.iloc[k:]]: the frame without its first [k] rows. *)
Definition drop_col (k : nat) (c : column) : column :=
  match c with
  | FloatCol xs => FloatCol (drop k xs)
  | ObjCol ss => ObjCol (drop k ss)
  end.

Definition drop_rows (k : nat) (d : DataFrame) : DataFrame :=
  mkDataFrame (drop k (index d))
    ((λ kv : string * column, (kv.1, drop_col k kv.2)) <$> columns d).

(** The labels [calculate_signal] assigns. *)
Definition derived : list string :=
  ["Liq_SMA_20"; "BTC_SMA_20"; "Correlation"; "Signal"].

(** * Sample frames *)

(** One row, and what the engine makes of it. *)
Definition single_row : DataFrame :=
  mkDataFrame [19000%Z]
    [("Net_Liquidity", FloatCol [Fin 100]); ("BTC_Price", FloatCol [Fin 50])].

Definition single_row_out : DataFrame :=
  mkDataFrame [19000%Z]
    [("Net_Liquidity", FloatCol [Fin 100]); ("BTC_Price", FloatCol [Fin 50]);
     ("Liq_SMA_20", FloatCol [NaN]); ("BTC_SMA_20", FloatCol [NaN]);
     ("Correlation", FloatCol [NaN]); ("Signal", ObjCol ["⚪ NEUTRAL"])].

Definition days (n : nat) : list Z := (λ k, 19000 + Z.of_nat k)%Z <$> seq 0 n.

(** The values [scale * a, scale * (a + 1), ...], [n] of them. *)
Definition line (scale : Z) (a n : nat) : list R :=
  (λ k, IZR (scale * Z.of_nat k)) <$> seq a n.

(** 35 rows, liquidity constant at 100, price rising by 1 a day from 50. *)
Definition flat_liquidity : DataFrame :=
  mkDataFrame (days 35)
    [("Net_Liquidity", FloatCol (replicate 35 (Fin 100)));
     ("BTC_Price", FloatCol (Fin <$> line 1 50 35))].

(** 40 rows, both series rising in lockstep, price twice the liquidity. *)
Definition lockstep : DataFrame :=
  mkDataFrame (days 40)
    [("Net_Liquidity", FloatCol (Fin <$> line 1 100 40));
     ("BTC_Price", FloatCol (Fin <$> line 2 100 40))].

(** The values [a, a + b, a + 2 b, ...], [n] of them. *)
Definition slope (a b : Z) (n : nat) : list R :=
  (λ k, IZR (a + b * Z.of_nat k)) <$> seq 0 n.

(** 20 rows, liquidity rising by 1 a day from 100 and price falling by 1 a
    day from 50. *)
Definition scissors : DataFrame :=
  mkDataFrame (days 20)
    [("Net_Liquidity", FloatCol (Fin <$> slope 100 1 20));
     ("BTC_Price", FloatCol (Fin <$> slope 50 (-1) 20))].

(** 25 rows with the liquidity of row 2 missing. *)
Definition gap_frame : DataFrame :=
  mkDataFrame (days 25)
    [("Net_Liquidity", FloatCol (<[2 := NaN]> (Fin <$> line 1 100 25)));
     ("BTC_Price", FloatCol (Fin <$> line 2 100 25))].

(** Three FRED series over six days: the weekly ones report on days 2 and
    5 only, the daily one from day 1 on but not on day 3. *)
Definition fred_sample : DataFrame :=
  mkDataFrame [1; 2; 3; 4; 5; 6]%Z
    [("WALCL", FloatCol [NaN; Fin 7000000; NaN; NaN; Fin 7100000; NaN]);
     ("WTREGEN", FloatCol [NaN; Fin 500000; NaN; NaN; Fin 600000; NaN]);
     ("RRPONTSYD", FloatCol [Fin 2000; Fin 2100; NaN; Fin 1900; Fin 1800; Fin 1700])].

(** A price download over days 3 to 7, labelled by (field, ticker). *)
Definition btc_sample : yf_frame :=
  mk_yf_frame [3; 4; 5; 6; 7]%Z
    (MultiLabels
       [(("Close", "BTC-USD"), [Fin 100; Fin 101; Fin 102; Fin 103; Fin 104]);
        (("Volume", "BTC-USD"), [Fin 9; Fin 8; Fin 7; Fin 6; Fin 5])]).

(** Twenty-five days on which every FRED series reports, and the prices of
    the same days. *)
Definition fred_month : DataFrame :=
  mkDataFrame (days 25)
    [("WALCL", FloatCol (Fin <$> line 1000 70 25));
     ("WTREGEN", FloatCol (Fin <$> line 100 50 25));
     ("RRPONTSYD", FloatCol (Fin <$> line 10 20 25))].

Definition btc_month : yf_frame :=
  mk_yf_frame (days 25) (PlainLabels [("Close", Fin <$> line 2 100 25)]).

Definition month_frame : DataFrame :=
  fetched_frame fred_month btc_month
    (Fin <$> line 1000 70 25) (Fin <$> line 100 50 25)
    (Fin <$> line 10 20 25) (Fin <$> line 2 100 25).

(** * Columns of a frame *)

Section columns.
Implicit Types (c k : string) (v : column) (cols : list (string * column)).

Lemma col_lookup_set_eq c v cols : col_lookup c (col_set c v cols) = Some v.
Proof.
  induction cols as [|[k w] cols IH]; csimpl.
  - by rewrite decide_True.
  - destruct (decide (k = c)) as [->|Hne]; csimpl.
    + by rewrite decide_True.
    + by rewrite decide_False.
Qed.

Lemma col_lookup_set_ne c k v cols :
  c ≠ k → col_lookup k (col_set c v cols) = col_lookup k cols.
Proof.
  intros Hck. induction cols as [|[k' w] cols IH]; csimpl.
  - by rewrite decide_False.
  - destruct (decide (k' = c)) as [->|Hne]; csimpl.
    + by rewrite !decide_False.
    + destruct (decide (k' = k)); [done|apply IH].
Qed.

(** Storing what a label already holds changes nothing. *)
Lemma col_set_id c v cols : col_lookup c cols = Some v → col_set c v cols = cols.
Proof.
  induction cols as [|[k w] cols IH]; csimpl; [done|].
  destruct (decide (k = c)) as [->|Hne].
  - by intros [= ->].
  - intros H. by rewrite IH.
Qed.

Lemma col_lookup_Some_elem c v cols : col_lookup c cols = Some v → (c, v) ∈ cols.
Proof.
  induction cols as [|[k w] cols IH]; csimpl; [done|].
  destruct (decide (k = c)) as [->|Hne].
  - intros [= ->]. left.
  - intros H. right. by apply IH.
Qed.

Lemma col_lookup_None c cols : col_lookup c cols = None ↔ c ∉ cols.*1.
Proof.
  induction cols as [|[k w] cols IH]; csimpl.
  - split; [intros _; apply not_elem_of_nil|done].
  - rewrite not_elem_of_cons. destruct (decide (k = c)) as [->|Hne].
    + split; [done|]. by intros [? _].
    + rewrite IH. split; [by intros ?; split|by intros [_ ?]].
Qed.

(** The labels after an assignment: unchanged for a label the frame has,
    one more at the end otherwise. *)
Lemma col_set_names_old c v cols : c ∈ cols.*1 → (col_set c v cols).*1 = cols.*1.
Proof.
  induction cols as [|[k w] cols IH]; csimpl.
  - by intros ?%elem_of_nil.
  - destruct (decide (k = c)) as [->|Hne]; csimpl; [done|].
    intros [?|?]%elem_of_cons; [congruence|]. by rewrite IH.
Qed.

Lemma col_set_names_new c v cols : c ∉ cols.*1 → (col_set c v cols).*1 = cols.*1 ++ [c].
Proof.
  induction cols as [|[k w] cols IH]; csimpl; [done|].
  intros [Hne Hnot]%not_elem_of_cons.
  rewrite decide_False by done. csimpl. by rewrite IH.
Qed.

Lemma col_set_names_elem c k v cols :
  k ∈ (col_set c v cols).*1 ↔ k = c ∨ k ∈ cols.*1.
Proof.
  destruct (decide (c ∈ cols.*1)) as [Hin|Hnot].
  - rewrite col_set_names_old by done.
    split; [by right|]. by intros [->|?].
  - rewrite col_set_names_new by done. rewrite elem_of_app, list_elem_of_singleton.
    split; intros [?|?]; auto.
Qed.

Lemma col_set_elem c v cols kv :
  kv ∈ col_set c v cols → kv = (c, v) ∨ kv ∈ cols.
Proof.
  induction cols as [|[k w] cols IH]; csimpl.
  - intros ?%list_elem_of_singleton. by left.
  - destruct (decide (k = c)) as [->|Hne].
    + intros [->|?]%elem_of_cons; [by left|]. right. by right.
    + intros [->|?]%elem_of_cons; [right; left|].
      destruct (IH H) as [?|?]; [by left|]. right. by right.
Qed.

Lemma col_set_NoDup c v cols : NoDup cols.*1 → NoDup (col_set c v cols).*1.
Proof.
  intros Hnd. destruct (decide (c ∈ cols.*1)) as [Hin|Hnot].
  - by rewrite col_set_names_old.
  - rewrite col_set_names_new by done. apply NoDup_app. split; [done|].
    split; [|apply NoDup_singleton].
    intros k Hk ->%list_elem_of_singleton. done.
Qed.
End columns.

(** * The body of [calculate_signal], step by step *)

(** Membership of a label in the list of the derived ones. *)
Ltac labels :=
  unfold derived;
  rewrite ?not_elem_of_cons, ?elem_of_cons, ?elem_of_nil;
  intuition (discriminate || congruence).

Lemma with_indicators_lookup d xs ys c :
  c ∉ derived →
  col_lookup c (columns (with_indicators d xs ys)) = col_lookup c (columns d).
Proof.
  intros Hc. unfold with_indicators; simpl.
  rewrite !col_lookup_set_ne; [done|..];
    intros <-; apply Hc; labels.
Qed.

Lemma with_indicators_liq_sma d xs ys :
  col_lookup "Liq_SMA_20" (columns (with_indicators d xs ys))
  = Some (FloatCol (roll_mean 20 xs)).
Proof.
  unfold with_indicators; simpl.
  rewrite !col_lookup_set_ne by done. apply col_lookup_set_eq.
Qed.

Lemma with_indicators_btc_sma d xs ys :
  col_lookup "BTC_SMA_20" (columns (with_indicators d xs ys))
  = Some (FloatCol (roll_mean 20 ys)).
Proof.
  unfold with_indicators; simpl.
  rewrite col_lookup_set_ne by done. apply col_lookup_set_eq.
Qed.

Lemma with_indicators_corr d xs ys :
  col_lookup "Correlation" (columns (with_indicators d xs ys))
  = Some (FloatCol (roll_corr 30 xs ys)).
Proof. unfold with_indicators; simpl. apply col_lookup_set_eq. Qed.

Section steps.
Implicit Types (c : string) (d : DataFrame).

Lemma step_getitem {B} c v (k : column → Df B) d :
  col_lookup c (columns d) = Some v → (getitem c ≫= k) d = k v d.
Proof. intros H. unfold mbind, Df_mbind, bind, getitem. by rewrite H. Qed.

Lemma step_getitem_raise {B} c (k : column → Df B) d :
  col_lookup c (columns d) = None → (getitem c ≫= k) d = (Raise (KeyError c), d).
Proof. intros H. unfold mbind, Df_mbind, bind, getitem. by rewrite H. Qed.

Lemma step_lift_ok {B C} (b : B) (k : B → Df C) d :
  (lift (Ok b) ≫= k) d = k b d.
Proof. done. Qed.

Lemma step_setitem {B} c v (k : unit → Df B) d :
  (setitem c v ≫= k) d
  = k () (mkDataFrame (index d) (col_set c v (columns d))).
Proof. done. Qed.
End steps.

Lemma calculate_signal_unfold d xs ys :
  col_lookup "Net_Liquidity" (columns d) = Some (FloatCol xs) →
  col_lookup "BTC_Price" (columns d) = Some (FloatCol ys) →
  calculate_signal d
  = (apply_axis1 get_status ≫= setitem "Signal") (with_indicators d xs ys).
Proof.
  intros Hx Hy. unfold calculate_signal.
  rewrite (step_getitem _ _ _ _ Hx). simpl rolling_mean.
  rewrite step_lift_ok, step_setitem.
  rewrite (step_getitem _ (FloatCol ys)) by (simpl; by rewrite col_lookup_set_ne).
  simpl rolling_mean. rewrite step_lift_ok, step_setitem.
  rewrite (step_getitem _ (FloatCol xs)) by (simpl; by rewrite !col_lookup_set_ne).
  rewrite (step_getitem _ (FloatCol ys)) by (simpl; by rewrite !col_lookup_set_ne).
  simpl rolling_corr. rewrite step_lift_ok, step_setitem.
  done.
Qed.

(** * Row-wise application *)

Section mapR.
Context {A B : Type}.
Implicit Types (f g : A → result B) (l : list A) (bs : list B).

Lemma mapR_Ok_Forall2 f l bs :
  mapR f l = Ok bs ↔ Forall2 (λ a b, f a = Ok b) l bs.
Proof.
  revert bs. induction l as [|a l IH]; intros bs; simpl.
  - split; [intros [= <-]; constructor|by intros ->%Forall2_nil_inv_l].
  - unfold mbind, result_mbind. destruct (f a) as [b|e] eqn:Hfa; simpl.
    + destruct (mapR f l) as [bs'|e] eqn:Hl; simpl.
      * split.
        -- intros [= <-]. constructor; [done|]. by apply IH.
        -- intros (b' & bs'' & Hb & Hbs & ->)%Forall2_cons_inv_l.
           apply IH in Hbs. congruence.
      * split; [done|].
        intros (b' & bs'' & Hb & Hbs & ->)%Forall2_cons_inv_l.
        apply IH in Hbs. done.
    + split; [done|].
      intros (b' & bs'' & Hb & Hbs & ->)%Forall2_cons_inv_l. congruence.
Qed.

Lemma mapR_Ok_length f l bs : mapR f l = Ok bs → length bs = length l.
Proof. intros H%mapR_Ok_Forall2. symmetry. by eapply Forall2_length. Qed.

Lemma mapR_Ok_lookup f l bs i a :
  mapR f l = Ok bs → l !! i = Some a → ∃ b, bs !! i = Some b ∧ f a = Ok b.
Proof.
  intros H%mapR_Ok_Forall2 Hi.
  destruct (Forall2_lookup_l _ _ _ _ _ H Hi) as (b & ? & ?). eauto.
Qed.

Lemma mapR_ext f g l :
  (∀ a, a ∈ l → f a = g a) → mapR f l = mapR g l.
Proof.
  induction l as [|a l IH]; intros Hfg; simpl; [done|].
  rewrite Hfg by left. rewrite IH; [done|].
  intros a' Ha'. apply Hfg. by right.
Qed.

Lemma mapR_total f l :
  (∀ a, a ∈ l → ∃ b, f a = Ok b) → ∃ bs, mapR f l = Ok bs.
Proof.
  induction l as [|a l IH]; intros Hf; simpl; [by eexists|].
  destruct (Hf a) as [b Hb]; [left|]. rewrite Hb.
  destruct IH as [bs Hbs]; [intros a' Ha'; apply Hf; by right|].
  rewrite Hbs. by eexists.
Qed.

Lemma mapR_take f l bs k :
  mapR f l = Ok bs → mapR f (take k l) = Ok (take k bs).
Proof.
  rewrite !mapR_Ok_Forall2. apply Forall2_take.
Qed.
End mapR.

Section rows.
Implicit Types (d : DataFrame) (i : nat) (c : string) (r : row).

Lemma row_at_float d i c xs x :
  col_lookup c (columns d) = Some (FloatCol xs) →
  xs !! i = Some x →
  row_at d i c = Ok (CFloat x).
Proof. intros Hc Hi. unfold row_at. rewrite Hc. simpl. by rewrite Hi. Qed.

Lemma row_at_float_inv d i c xs v :
  col_lookup c (columns d) = Some (FloatCol xs) →
  row_at d i c = Ok v →
  ∃ x, xs !! i = Some x ∧ v = CFloat x.
Proof.
  intros Hc. unfold row_at. rewrite Hc. simpl.
  destruct (xs !! i) as [x|]; simpl; [|done]. intros [= <-]. eauto.
Qed.

(** [get_status] on a row whose five numeric cells are floats: the value
    is the text of the specification's chain. *)
Lemma get_status_floats r liq sma_l btc sma_b corr :
  r "Net_Liquidity" = Ok (CFloat liq) →
  r "Liq_SMA_20" = Ok (CFloat sma_l) →
  r "BTC_Price" = Ok (CFloat btc) →
  r "BTC_SMA_20" = Ok (CFloat sma_b) →
  r "Correlation" = Ok (CFloat corr) →
  get_status r
  = Ok (label (classify (float_gt liq sma_l) (float_gt btc sma_b)
                        (float_gt corr (Fin (1 / 2))))).
Proof.
  intros H1 H2 H3 H4 H5. unfold get_status.
  rewrite H1, H2, H3, H4, H5. simpl. unfold classify.
  by repeat case_match.
Qed.

Lemma get_status_Ok_inv r s :
  get_status r = Ok s →
  ∃ v1 v2 v3 v4 v5, r "Net_Liquidity" = Ok v1 ∧ r "Liq_SMA_20" = Ok v2 ∧
    r "BTC_Price" = Ok v3 ∧ r "BTC_SMA_20" = Ok v4 ∧ r "Correlation" = Ok v5.
Proof.
  unfold get_status, mbind, result_mbind. intros H.
  destruct (r "Net_Liquidity") as [v1|]; simpl in H; [|done].
  destruct (r "Liq_SMA_20") as [v2|]; simpl in H; [|done].
  destruct (cell_gt v1 v2); simpl in H; [|done].
  destruct (r "BTC_Price") as [v3|]; simpl in H; [|done].
  destruct (r "BTC_SMA_20") as [v4|]; simpl in H; [|done].
  destruct (cell_gt v3 v4); simpl in H; [|done].
  destruct (r "Correlation") as [v5|]; simpl in H; [|done].
  by exists v1, v2, v3, v4, v5.
Qed.
End rows.

(** * What a run of [calculate_signal] amounts to *)

(** A run on a frame that holds the two input series as float columns. *)
Lemma calculate_signal_run d xs ys :
  col_lookup "Net_Liquidity" (columns d) = Some (FloatCol xs) →
  col_lookup "BTC_Price" (columns d) = Some (FloatCol ys) →
  calculate_signal d
  = match statuses d xs ys with
    | Ok sigs => (Ok (), with_signal d xs ys sigs)
    | Raise e => (Raise e, with_indicators d xs ys)
    end.
Proof.
  intros Hx Hy. rewrite (calculate_signal_unfold _ _ _ Hx Hy).
  unfold mbind, Df_mbind, bind, apply_axis1, statuses. simpl index.
  by destruct (mapR _ _).
Qed.

(** A run that returns: the frame held the two float series, and the result
    is the frame with the four columns assigned. *)
Lemma calculate_signal_inv d out :
  calculate_signal d = (Ok (), out) →
  ∃ xs ys sigs,
    col_lookup "Net_Liquidity" (columns d) = Some (FloatCol xs) ∧
    col_lookup "BTC_Price" (columns d) = Some (FloatCol ys) ∧
    statuses d xs ys = Ok sigs ∧
    out = with_signal d xs ys sigs.
Proof.
  intros Hrun.
  destruct (col_lookup "Net_Liquidity" (columns d)) as [[xs|ss]|] eqn:Hx; cycle 1.
  { unfold calculate_signal in Hrun.
    by rewrite (step_getitem _ _ _ _ Hx) in Hrun. }
  { unfold calculate_signal in Hrun.
    by rewrite (step_getitem_raise _ _ _ Hx) in Hrun. }
  destruct (col_lookup "BTC_Price" (columns d)) as [[ys|ss]|] eqn:Hy; cycle 1.
  { unfold calculate_signal in Hrun.
    rewrite (step_getitem _ _ _ _ Hx) in Hrun. simpl rolling_mean in Hrun.
    rewrite step_lift_ok, step_setitem in Hrun.
    rewrite (step_getitem _ (ObjCol ss)) in Hrun
      by (simpl; by rewrite col_lookup_set_ne).
    done. }
  { unfold calculate_signal in Hrun.
    rewrite (step_getitem _ _ _ _ Hx) in Hrun. simpl rolling_mean in Hrun.
    rewrite step_lift_ok, step_setitem in Hrun.
    rewrite step_getitem_raise in Hrun
      by (simpl; by rewrite col_lookup_set_ne).
    done. }
  rewrite (calculate_signal_run _ _ _ Hx Hy) in Hrun.
  exists xs, ys.
  destruct (statuses d xs ys) as [sigs|e]; [|done].
  exists sigs. by injection Hrun as <-.
Qed.

(** * Rolling windows *)

Section windows.
Context {A : Type}.
Implicit Types (xs : list A) (w i k : nat).

Lemma window_length w i xs :
  i < length xs → length (window w i xs) = S i `min` w.
Proof. intros Hi. unfold window. rewrite length_drop, length_take. lia. Qed.

Lemma window_length_le w i xs : length (window w i xs) ≤ S i `min` w.
Proof. unfold window. rewrite length_drop, length_take. lia. Qed.

(** A window looks at no row after its own. *)
Lemma window_take w i k xs : i < k → window w i (take k xs) = window w i xs.
Proof.
  intros Hik. unfold window. rewrite take_take. f_equal. f_equal. lia.
Qed.

(** Once complete, the window is the trailing [w] rows. *)
Lemma window_trailing w i xs :
  w ≤ S i → i < length xs → window w i xs = trailing w i xs.
Proof.
  intros Hw Hi. unfold window, trailing.
  rewrite take_drop_commute. f_equal. f_equal. lia.
Qed.

End windows.

Lemma omap_finite_Fin (rs : list R) : omap finite (Fin <$> rs) = rs.
Proof. induction rs as [|r rs IH]; csimpl; [done|]. by rewrite IH. Qed.

Lemma length_omap_le {A B} (f : A → option B) (l : list A) :
  length (omap f l) ≤ length l.
Proof.
  induction l as [|a l IH]; csimpl; [done|].
  destruct (f a); simpl; lia.
Qed.

Section roll_mean.
Implicit Types (xs : list float) (w i k : nat).

Lemma roll_mean_length w xs : length (roll_mean w xs) = length xs.
Proof. unfold roll_mean. by rewrite length_fmap, length_seq. Qed.

Lemma roll_mean_lookup w xs i :
  i < length xs →
  roll_mean w xs !! i = Some (mean_obs w (omap finite (window w i xs))).
Proof.
  intros Hi. unfold roll_mean. rewrite list_lookup_fmap.
  by rewrite lookup_seq_lt.
Qed.

Lemma mean_obs_short w (obs : list R) : length obs < w → mean_obs w obs = NaN.
Proof. intros H. unfold mean_obs. rewrite decide_False; [done|lia]. Qed.

(** Fewer than [w] rows so far: no value yet. *)
Lemma roll_mean_warmup w xs i :
  S i < w → i < length xs → roll_mean w xs !! i = Some NaN.
Proof.
  intros Hw Hi. rewrite roll_mean_lookup by done. f_equal.
  apply mean_obs_short.
  pose proof (length_omap_le finite (window w i xs)).
  pose proof (window_length_le w i xs). lia.
Qed.

Lemma roll_mean_take w k xs : roll_mean w (take k xs) = take k (roll_mean w xs).
Proof.
  apply list_eq. intros i.
  destruct (decide (i < k)) as [Hik|Hik]; cycle 1.
  { rewrite lookup_take_ge by lia. apply lookup_ge_None_2.
    rewrite roll_mean_length, length_take. lia. }
  rewrite lookup_take_lt by done.
  destruct (decide (i < length xs)) as [Hi|Hi].
  - rewrite !roll_mean_lookup by (rewrite ?length_take; lia).
    by rewrite window_take.
  - rewrite !lookup_ge_None_2; [done|..];
      rewrite roll_mean_length, ?length_take; lia.
Qed.

(** Row [i >= w - 1] whose trailing [w] rows hold no NaN: their mean. *)
Lemma roll_mean_complete w xs (rs : list R) i :
  0 < w → w ≤ S i → i < length xs →
  trailing w i xs = Fin <$> rs →
  roll_mean w xs !! i = Some (Fin (mean rs)).
Proof.
  intros Hw0 Hw Hi Hrs. rewrite roll_mean_lookup by done.
  rewrite window_trailing, Hrs, omap_finite_Fin by done.
  assert (length rs = w) as Hlen.
  { rewrite <-(length_fmap Fin), <-Hrs, <-window_trailing by done.
    rewrite window_length by done. lia. }
  unfold mean_obs, mean. rewrite decide_True; [done|lia].
Qed.
End roll_mean.

(** * Sums, deviations and the Cauchy-Schwarz bound *)

Section sums.
Local Open Scope R_scope.
Implicit Types (l : list R) (ps : list (R * R)).

Lemma Rsum_replicate n x : Rsum (replicate n x) = INR n * x.
Proof.
  induction n as [|n IH]; [simpl; lra|].
  rewrite S_INR. simpl. rewrite IH. lra.
Qed.

Lemma Rsum_squares_nonneg {A} (f : A → R) (xs : list A) :
  0 <= Rsum ((λ a, f a * f a) <$> xs).
Proof.
  induction xs as [|a xs IH]; csimpl; [lra|].
  pose proof (Rle_0_sqr (f a)) as H. unfold Rsqr in H. lra.
Qed.

(** A sum of squares vanishes only when every term does. *)
Lemma Rsum_squares_zero {A} (f : A → R) (xs : list A) a :
  Rsum ((λ a, f a * f a) <$> xs) = 0 → a ∈ xs → f a = 0.
Proof.
  induction xs as [|b xs IH]; csimpl; [by intros _ ?%elem_of_nil|].
  intros Hsum Ha.
  pose proof (Rsum_squares_nonneg f xs) as Hxs.
  pose proof (Rle_0_sqr (f b)) as Hb. unfold Rsqr in Hb.
  apply elem_of_cons in Ha as [->|Ha].
  - assert (f b * f b = 0) as H0 by lra.
    apply Rmult_integral in H0. tauto.
  - apply IH; [lra|done].
Qed.

(** [sum (a*t + b)^2] as a polynomial in [t]. *)
Lemma Rsum_quadratic ps t :
  Rsum ((λ p, (p.1 * t + p.2) * (p.1 * t + p.2)) <$> ps)
  = Rsum ((λ p, p.1 * p.1) <$> ps) * (t * t)
    + 2 * Rsum ((λ p, p.1 * p.2) <$> ps) * t
    + Rsum ((λ p, p.2 * p.2) <$> ps).
Proof.
  induction ps as [|[a b] ps IH]; csimpl; [lra|]. rewrite IH. lra.
Qed.

Theorem cauchy_schwarz ps :
  Rsum ((λ p, p.1 * p.2) <$> ps) * Rsum ((λ p, p.1 * p.2) <$> ps)
  <= Rsum ((λ p, p.1 * p.1) <$> ps) * Rsum ((λ p, p.2 * p.2) <$> ps).
Proof.
  set (A := Rsum ((λ p, p.1 * p.1) <$> ps)).
  set (B := Rsum ((λ p, p.2 * p.2) <$> ps)).
  set (C := Rsum ((λ p, p.1 * p.2) <$> ps)).
  assert (∀ t, 0 <= A * (t * t) + 2 * C * t + B) as Hquad.
  { intros t. unfold A, B, C. rewrite <-Rsum_quadratic.
    apply (Rsum_squares_nonneg (λ p, p.1 * t + p.2)). }
  assert (0 <= A) as HA by apply (Rsum_squares_nonneg fst).
  assert (0 <= B) as HB by apply (Rsum_squares_nonneg snd).
  destruct (Req_dec_T A 0) as [HA0|HA0].
  - destruct (Req_dec_T C 0) as [HC0|HC0]; [rewrite HA0, HC0; lra|].
    exfalso. specialize (Hquad (- (B + 1) / (2 * C))).
    rewrite HA0 in Hquad.
    replace (2 * C * (- (B + 1) / (2 * C))) with (- (B + 1)) in Hquad
      by (field; lra).
    lra.
  - specialize (Hquad (- C / A)).
    replace (A * (- C / A * (- C / A)) + 2 * C * (- C / A) + B)
      with ((A * B - C * C) / A) in Hquad by (field; lra).
    assert (0 < A) as HApos by lra.
    assert (0 <= (A * B - C * C) / A * A) as H by nra.
    replace ((A * B - C * C) / A * A) with (A * B - C * C) in H
      by (field; lra).
    lra.
Qed.

(** Products of deviations from two constants. *)
Lemma Rsum_deviations ps a b :
  Rsum ((λ p, (p.1 - a) * (p.2 - b)) <$> ps)
  = Rsum (zip_with Rmult ps.*1 ps.*2) - a * Rsum ps.*2 - b * Rsum ps.*1
    + INR (length ps) * a * b.
Proof.
  induction ps as [|[x y] ps IH]; [simpl; lra|].
  rewrite length_cons, S_INR. csimpl. rewrite IH. lra.
Qed.
End sums.

(** * One window of the rolling correlation *)

Section correlation.
Local Open Scope R_scope.
Implicit Types (ps : list (R * R)) (l : list R).

Lemma INR_length_pos {A} (xs : list A) : (1 < length xs)%nat → 1 < INR (length xs).
Proof. intros H. apply (lt_INR 1) in H. simpl in H. lra. Qed.

Lemma variance_nonneg l : (1 < length l)%nat → 0 <= variance l.
Proof.
  intros Hn%INR_length_pos. unfold variance.
  pose proof (Rsum_squares_nonneg (λ x, x - mean l) l) as H.
  apply Rmult_le_pos; [done|]. apply Rlt_le, Rinv_0_lt_compat. lra.
Qed.

Lemma codeviation_deviations ps :
  codeviation ps = Rsum ((λ p, p.1 * p.2) <$> deviations ps).
Proof. unfold codeviation, deviations. by rewrite <-list_fmap_compose. Qed.

Lemma variance_fst ps :
  variance ps.*1
  = Rsum ((λ p, p.1 * p.1) <$> deviations ps) / (INR (length ps) - 1).
Proof.
  unfold variance, deviations. rewrite length_fmap.
  by rewrite <-!list_fmap_compose.
Qed.

Lemma variance_snd ps :
  variance ps.*2
  = Rsum ((λ p, p.2 * p.2) <$> deviations ps) / (INR (length ps) - 1).
Proof.
  unfold variance, deviations. rewrite length_fmap.
  by rewrite <-!list_fmap_compose.
Qed.

(** Cauchy-Schwarz for the window: [cov^2 <= var(x) * var(y)]. *)
Lemma covariance_sqr_le ps :
  (1 < length ps)%nat →
  covariance ps * covariance ps <= variance ps.*1 * variance ps.*2.
Proof.
  intros Hn%INR_length_pos.
  rewrite variance_fst, variance_snd. unfold covariance.
  rewrite codeviation_deviations.
  pose proof (cauchy_schwarz (deviations ps)) as Hcs.
  set (C := Rsum ((λ p, p.1 * p.2) <$> deviations ps)) in *.
  set (A := Rsum ((λ p, p.1 * p.1) <$> deviations ps)) in *.
  set (B := Rsum ((λ p, p.2 * p.2) <$> deviations ps)) in *.
  set (m := INR (length ps) - 1) in *.
  assert (0 < / m) as Hm by (apply Rinv_0_lt_compat; unfold m; lra).
  unfold Rdiv.
  replace (C * / m * (C * / m)) with (C * C * (/ m * / m)) by ring.
  replace (A * / m * (B * / m)) with (A * B * (/ m * / m)) by ring.
  apply Rmult_le_compat_r; [|done].
  by apply Rlt_le, Rmult_lt_0_compat.
Qed.

(** What pandas evaluates as the numerator is the sample covariance. *)
Lemma corr_numerator ps :
  (1 < length ps)%nat →
  (Rsum (zip_with Rmult ps.*1 ps.*2) / INR (length ps)
     - Rsum ps.*1 / INR (length ps) * (Rsum ps.*2 / INR (length ps)))
  * (INR (length ps) / (INR (length ps) - 1))
  = covariance ps.
Proof.
  intros Hn%INR_length_pos. unfold covariance, codeviation.
  rewrite Rsum_deviations. unfold mean. rewrite !length_fmap.
  field. lra.
Qed.

Lemma corr_obs_unfold minp ps :
  (minp ≤ length ps)%nat → (1 < length ps)%nat →
  corr_obs minp ps
  = float_div (Fin (covariance ps))
              (Fin (sqrt (variance ps.*1 * variance ps.*2))).
Proof.
  intros Hminp Hn. unfold corr_obs, mean_obs, var_obs.
  rewrite length_zip_with, !length_fmap, Nat.min_id.
  rewrite !decide_True by lia. simpl float_sub. simpl float_mul.
  pose proof (INR_length_pos _ Hn) as Hn'.
  unfold float_div at 2. rewrite decide_False by (simpl; lra).
  simpl float_mul.
  pose proof (variance_nonneg ps.*1) as Hx.
  pose proof (variance_nonneg ps.*2) as Hy.
  rewrite !length_fmap in *. specialize (Hx Hn). specialize (Hy Hn).
  unfold variance, mean in Hx, Hy. rewrite !length_fmap in Hx, Hy.
  unfold float_sqrt. rewrite decide_False; cycle 1.
  { simpl INR. apply Rle_not_lt. by apply Rmult_le_pos. }
  rewrite <-(corr_numerator ps Hn).
  unfold variance, mean. rewrite !length_fmap. done.
Qed.

(** Zero variance means a constant window. *)
Lemma variance_two_values l x y :
  (1 < length l)%nat → x ∈ l → y ∈ l → x ≠ y → variance l ≠ 0.
Proof.
  intros Hn%INR_length_pos Hx Hy Hxy Hvar. unfold variance in Hvar.
  assert (Rsum ((λ x, (x - mean l) * (x - mean l)) <$> l) = 0) as Hsum.
  { apply (Rmult_eq_reg_r (/ (INR (length l) - 1))).
    - rewrite Rmult_0_l. exact Hvar.
    - apply Rinv_neq_0_compat. lra. }
  pose proof (Rsum_squares_zero (λ x, x - mean l) l x Hsum Hx) as H1.
  pose proof (Rsum_squares_zero (λ x, x - mean l) l y Hsum Hy) as H2.
  simpl in H1, H2. apply Hxy. lra.
Qed.

(** The numerator vanishes whenever the denominator does, so the division is
    [0 / 0] there, never a non-zero value over zero. *)
Lemma corr_numerator_zero ps :
  (1 < length ps)%nat →
  sqrt (variance ps.*1 * variance ps.*2) = 0 →
  covariance ps = 0.
Proof.
  intros Hn Hden.
  pose proof (variance_nonneg ps.*1) as Hx.
  pose proof (variance_nonneg ps.*2) as Hy.
  rewrite !length_fmap in *. specialize (Hx Hn). specialize (Hy Hn).
  apply sqrt_eq_0 in Hden; [|by apply Rmult_le_pos].
  pose proof (covariance_sqr_le ps Hn) as Hcs. rewrite Hden in Hcs.
  pose proof (Rle_0_sqr (covariance ps)) as Hsq. unfold Rsqr in Hsq.
  assert (covariance ps * covariance ps = 0) as H0 by lra.
  apply Rmult_integral in H0. tauto.
Qed.

(** Zero variance on either side: NaN. *)
Lemma corr_obs_zero_variance minp ps :
  (minp ≤ length ps)%nat → (1 < length ps)%nat →
  variance ps.*1 = 0 ∨ variance ps.*2 = 0 →
  corr_obs minp ps = NaN.
Proof.
  intros Hminp Hn Hzero. rewrite corr_obs_unfold by done.
  assert (variance ps.*1 * variance ps.*2 = 0) as ->
    by (destruct Hzero as [-> | ->]; ring).
  rewrite sqrt_0. unfold float_div. by rewrite decide_True.
Qed.

(** Otherwise: Pearson's coefficient, within [-1, 1]. *)
Lemma corr_obs_pearson minp ps :
  (minp ≤ length ps)%nat → (1 < length ps)%nat →
  variance ps.*1 ≠ 0 → variance ps.*2 ≠ 0 →
  corr_obs minp ps = Fin (pearson ps) ∧ -1 <= pearson ps <= 1.
Proof.
  intros Hminp Hn Hvx Hvy. rewrite corr_obs_unfold by done.
  pose proof (variance_nonneg ps.*1) as Hx.
  pose proof (variance_nonneg ps.*2) as Hy.
  rewrite !length_fmap in *. specialize (Hx Hn). specialize (Hy Hn).
  assert (0 < variance ps.*1 * variance ps.*2) as Hpos
    by (apply Rmult_lt_0_compat; lra).
  pose proof (sqrt_lt_R0 _ Hpos) as Hden.
  assert (pearson ps
          = covariance ps / sqrt (variance ps.*1 * variance ps.*2)) as Hp.
  { unfold pearson, stdev. by rewrite sqrt_mult. }
  split.
  - unfold float_div. rewrite decide_False by lra. by rewrite Hp.
  - rewrite Hp.
    pose proof (covariance_sqr_le ps Hn) as Hcs.
    set (c := covariance ps) in *.
    set (s := sqrt (variance ps.*1 * variance ps.*2)) in *.
    assert (s * s = variance ps.*1 * variance ps.*2) as Hss
      by (apply sqrt_sqrt; lra).
    assert (-s <= c <= s) as [Hlo Hhi] by (split; nra).
    split.
    + apply (Rmult_le_reg_r s); [done|].
      replace (c / s * s) with c by (field; lra). lra.
    + apply (Rmult_le_reg_r s); [done|].
      replace (c / s * s) with c by (field; lra). lra.
Qed.
End correlation.

Section roll_corr.
Implicit Types (xs ys : list float) (w i k : nat).

Lemma roll_corr_length w xs ys : length (roll_corr w xs ys) = length xs.
Proof. unfold roll_corr. by rewrite length_fmap, length_seq. Qed.

Lemma roll_corr_lookup w xs ys i :
  i < length xs →
  roll_corr w xs ys !! i
  = Some (corr_obs w (omap pair_obs (window w i (zip xs ys)))).
Proof.
  intros Hi. unfold roll_corr. rewrite list_lookup_fmap.
  by rewrite lookup_seq_lt.
Qed.

Lemma corr_obs_short w (obs : list (R * R)) :
  length obs < w → corr_obs w obs = NaN.
Proof.
  intros H. unfold corr_obs.
  rewrite (mean_obs_short w obs.*1) by (by rewrite length_fmap).
  rewrite (mean_obs_short w (zip_with _ _ _))
    by (rewrite length_zip_with, !length_fmap; lia).
  done.
Qed.

(** Fewer than [w] rows so far: no value yet. *)
Lemma roll_corr_warmup w xs ys i :
  S i < w → i < length xs → roll_corr w xs ys !! i = Some NaN.
Proof.
  intros Hw Hi. rewrite roll_corr_lookup by done. f_equal.
  apply corr_obs_short.
  pose proof (length_omap_le pair_obs (window w i (zip xs ys))).
  pose proof (window_length_le w i (zip xs ys)). lia.
Qed.

Lemma roll_corr_take w k xs ys :
  roll_corr w (take k xs) (take k ys) = take k (roll_corr w xs ys).
Proof.
  apply list_eq. intros i.
  destruct (decide (i < k)) as [Hik|Hik]; cycle 1.
  { rewrite lookup_take_ge by lia. apply lookup_ge_None_2.
    rewrite roll_corr_length, length_take. lia. }
  rewrite lookup_take_lt by done.
  destruct (decide (i < length xs)) as [Hi|Hi].
  - rewrite !roll_corr_lookup by (rewrite ?length_take; lia).
    by rewrite <-(zip_with_take pair k xs ys), window_take.
  - rewrite !lookup_ge_None_2; [done|..];
      rewrite roll_corr_length, ?length_take; lia.
Qed.

Lemma omap_pair_obs_Fin (ps : list (R * R)) :
  omap pair_obs ((λ p, (Fin p.1, Fin p.2)) <$> ps) = ps.
Proof. induction ps as [|[x y] ps IH]; csimpl; [done|]. by rewrite IH. Qed.

Lemma zip_Fin (rs qs : list R) :
  zip (Fin <$> rs) (Fin <$> qs) = (λ p, (Fin p.1, Fin p.2)) <$> zip rs qs.
Proof.
  revert qs. induction rs as [|r rs IH]; intros [|q qs]; csimpl; [done..|].
  by rewrite <-IH.
Qed.

(** Row [i >= w - 1] whose trailing [w] rows hold no NaN on either side is
    computed from exactly those rows. *)
Lemma roll_corr_complete w xs ys (rs qs : list R) i :
  w ≤ S i → i < length xs → length xs = length ys →
  trailing w i xs = Fin <$> rs → trailing w i ys = Fin <$> qs →
  roll_corr w xs ys !! i = Some (corr_obs w (zip rs qs)).
Proof.
  intros Hw Hi Hlen Hrs Hqs. rewrite roll_corr_lookup by done.
  rewrite window_trailing by (rewrite ?length_zip; lia).
  unfold trailing in *.
  rewrite (zip_with_drop pair _ xs ys), (zip_with_take pair w), Hrs, Hqs.
  by rewrite zip_Fin, omap_pair_obs_Fin.
Qed.

End roll_corr.

(** * A constant series *)

Section constant.
Local Open Scope R_scope.

Lemma mean_replicate n c : (0 < n)%nat → mean (replicate n c) = c.
Proof.
  intros Hn. unfold mean. rewrite Rsum_replicate, length_replicate.
  apply (lt_INR 0) in Hn. simpl in Hn. field. lra.
Qed.

Lemma variance_replicate n c : variance (replicate n c) = 0.
Proof.
  unfold variance. destruct n as [|n]; [simpl; lra|].
  rewrite mean_replicate by lia.
  rewrite fmap_replicate, Rsum_replicate. unfold Rdiv. ring.
Qed.

Lemma trailing_replicate {A} w i n (a : A) :
  (w ≤ S i)%nat → (i < n)%nat → trailing w i (replicate n a) = replicate w a.
Proof.
  intros Hw Hi. unfold trailing.
  rewrite drop_replicate, take_replicate. f_equal. lia.
Qed.

(** The 20-row average of a constant series is that constant. *)
Lemma roll_mean_replicate w n c i :
  (0 < w)%nat → (w ≤ S i)%nat → (i < n)%nat →
  roll_mean w (replicate n (Fin c)) !! i = Some (Fin c).
Proof.
  intros Hw0 Hw Hi.
  rewrite (roll_mean_complete w _ (replicate w c));
    [|done|done|by rewrite length_replicate|].
  - by rewrite mean_replicate.
  - rewrite trailing_replicate by done. by rewrite fmap_replicate.
Qed.

Lemma pair_obs_fst_constant c (l : list (float * float)) :
  Forall (λ p, p.1 = Fin c) l →
  (omap pair_obs l).*1 = replicate (length (omap pair_obs l)) c.
Proof.
  induction 1 as [|[x y] l Hx Hl IH]; csimpl; [done|].
  simpl in Hx. subst x. destruct y as [|y]; csimpl; [done|].
  by rewrite IH.
Qed.

(** Against a constant series every window has zero variance on one side,
    so the rolling correlation is NaN on every row. *)
Lemma roll_corr_replicate w n c ys i :
  (1 < w)%nat → (i < n)%nat →
  roll_corr w (replicate n (Fin c)) ys !! i = Some NaN.
Proof.
  intros Hw Hi. rewrite roll_corr_lookup by (by rewrite length_replicate).
  f_equal.
  set (obs := omap pair_obs (window w i (zip (replicate n (Fin c)) ys))).
  destruct (decide (length obs < w)%nat) as [Hshort|Hlong].
  { by apply corr_obs_short. }
  apply corr_obs_zero_variance; [lia|lia|]. left.
  unfold obs. rewrite (pair_obs_fst_constant c).
  - apply variance_replicate.
  - unfold window. apply Forall_drop, Forall_take, Forall_forall.
    intros [x y] Hxy%elem_of_zip_l. by apply elem_of_replicate in Hxy as [-> _].
Qed.
End constant.

(** * Rows of the result *)

Section result_rows.
Context (d : DataFrame) (xs ys : list float).
Hypothesis Hx : col_lookup "Net_Liquidity" (columns d) = Some (FloatCol xs).
Hypothesis Hy : col_lookup "BTC_Price" (columns d) = Some (FloatCol ys).

Lemma with_indicators_liq : 
  col_lookup "Net_Liquidity" (columns (with_indicators d xs ys))
  = Some (FloatCol xs).
Proof. rewrite with_indicators_lookup; [done|]. labels. Qed.

Lemma with_indicators_btc :
  col_lookup "BTC_Price" (columns (with_indicators d xs ys))
  = Some (FloatCol ys).
Proof. rewrite with_indicators_lookup; [done|]. labels. Qed.

(** The status of a row that has its five numeric cells. *)
Lemma status_of_row i liq sma_l btc sma_b corr :
  xs !! i = Some liq → roll_mean 20 xs !! i = Some sma_l →
  ys !! i = Some btc → roll_mean 20 ys !! i = Some sma_b →
  roll_corr 30 xs ys !! i = Some corr →
  get_status (row_at (with_indicators d xs ys) i)
  = Ok (label (classify (float_gt liq sma_l) (float_gt btc sma_b)
                        (float_gt corr (Fin (1 / 2))))).
Proof.
  intros H1 H2 H3 H4 H5. apply get_status_floats.
  - eapply row_at_float; [apply with_indicators_liq|done].
  - eapply row_at_float; [apply with_indicators_liq_sma|done].
  - eapply row_at_float; [apply with_indicators_btc|done].
  - eapply row_at_float; [apply with_indicators_btc_sma|done].
  - eapply row_at_float; [apply with_indicators_corr|done].
Qed.

Lemma status_of_row_inv i s :
  get_status (row_at (with_indicators d xs ys) i) = Ok s →
  ∃ liq sma_l btc sma_b corr,
    xs !! i = Some liq ∧ roll_mean 20 xs !! i = Some sma_l ∧
    ys !! i = Some btc ∧ roll_mean 20 ys !! i = Some sma_b ∧
    roll_corr 30 xs ys !! i = Some corr ∧
    s = label (classify (float_gt liq sma_l) (float_gt btc sma_b)
                        (float_gt corr (Fin (1 / 2)))).
Proof.
  intros Hs.
  destruct (get_status_Ok_inv _ _ Hs) as (v1 & v2 & v3 & v4 & v5 & H1 & H2 & H3 & H4 & H5).
  destruct (row_at_float_inv _ _ _ _ _ with_indicators_liq H1) as (liq & ? & ->).
  destruct (row_at_float_inv _ _ _ _ _ (with_indicators_liq_sma d xs ys) H2)
    as (sma_l & ? & ->).
  destruct (row_at_float_inv _ _ _ _ _ with_indicators_btc H3) as (btc & ? & ->).
  destruct (row_at_float_inv _ _ _ _ _ (with_indicators_btc_sma d xs ys) H4)
    as (sma_b & ? & ->).
  destruct (row_at_float_inv _ _ _ _ _ (with_indicators_corr d xs ys) H5)
    as (corr & ? & ->).
  exists liq, sma_l, btc, sma_b, corr. repeat (split; [done|]).
  rewrite (status_of_row i liq sma_l btc sma_b corr) in Hs by done.
  by injection Hs as <-.
Qed.

Lemma statuses_lookup sigs i :
  statuses d xs ys = Ok sigs → i < length (index d) →
  ∃ liq sma_l btc sma_b corr,
    xs !! i = Some liq ∧ roll_mean 20 xs !! i = Some sma_l ∧
    ys !! i = Some btc ∧ roll_mean 20 ys !! i = Some sma_b ∧
    roll_corr 30 xs ys !! i = Some corr ∧
    sigs !! i = Some (label (classify (float_gt liq sma_l) (float_gt btc sma_b)
                                      (float_gt corr (Fin (1 / 2))))).
Proof.
  intros Hsigs Hi. unfold statuses in Hsigs.
  destruct (mapR_Ok_lookup _ _ _ i i Hsigs) as (s & Hsi & Hs);
    [by apply lookup_seq_lt|].
  destruct (status_of_row_inv _ _ Hs)
    as (liq & sma_l & btc & sma_b & corr & ? & ? & ? & ? & ? & ->).
  exists liq, sma_l, btc, sma_b, corr. done.
Qed.

(** On a well-formed frame every row has its cells, so every row gets a
    status. *)
Lemma statuses_total : wf d → ∃ sigs, statuses d xs ys = Ok sigs.
Proof.
  intros [_ Hlen]. rewrite Forall_forall in Hlen.
  pose proof (Hlen _ (col_lookup_Some_elem _ _ _ Hx)) as Hlx.
  pose proof (Hlen _ (col_lookup_Some_elem _ _ _ Hy)) as Hly.
  simpl in Hlx, Hly.
  apply mapR_total. intros i Hi%elem_of_seq.
  destruct (lookup_lt_is_Some_2 xs i) as [liq Hliq]; [lia|].
  destruct (lookup_lt_is_Some_2 ys i) as [btc Hbtc]; [lia|].
  destruct (lookup_lt_is_Some_2 (roll_mean 20 xs) i) as [sma_l Hsl];
    [rewrite roll_mean_length; lia|].
  destruct (lookup_lt_is_Some_2 (roll_mean 20 ys) i) as [sma_b Hsb];
    [rewrite roll_mean_length; lia|].
  destruct (lookup_lt_is_Some_2 (roll_corr 30 xs ys) i) as [corr Hco];
    [rewrite roll_corr_length; lia|].
  eexists. by apply (status_of_row i liq sma_l btc sma_b corr).
Qed.
End result_rows.

Lemma statuses_length d xs ys sigs :
  statuses d xs ys = Ok sigs → length sigs = length (index d).
Proof. intros H%mapR_Ok_length. by rewrite length_seq in H. Qed.

Lemma with_signal_lookup_signal d xs ys sigs :
  col_lookup "Signal" (columns (with_signal d xs ys sigs)) = Some (ObjCol sigs).
Proof. apply col_lookup_set_eq. Qed.

Lemma with_signal_lookup_other d xs ys sigs c :
  c ≠ "Signal" →
  col_lookup c (columns (with_signal d xs ys sigs))
  = col_lookup c (columns (with_indicators d xs ys)).
Proof. intros Hc. unfold with_signal; simpl. by rewrite col_lookup_set_ne. Qed.

Lemma with_signal_lookup_input d xs ys sigs c :
  c ∉ derived →
  col_lookup c (columns (with_signal d xs ys sigs)) = col_lookup c (columns d).
Proof.
  intros Hc. rewrite with_signal_lookup_other, with_indicators_lookup; [done..|].
  intros ->. apply Hc. labels.
Qed.


(** * The first [k] rows *)

Section truncate.
Implicit Types (d : DataFrame) (k i : nat) (c : string).

Lemma col_lookup_take k c (cols : list (string * column)) :
  col_lookup c ((λ kv : string * column, (kv.1, take_col k kv.2)) <$> cols)
  = take_col k <$> col_lookup c cols.
Proof.
  induction cols as [|[k' v] cols IH]; csimpl; [done|].
  by destruct (decide (k' = c)).
Qed.

Lemma col_set_take k c v (cols : list (string * column)) :
  (λ kv : string * column, (kv.1, take_col k kv.2)) <$> col_set c v cols
  = col_set c (take_col k v)
      ((λ kv : string * column, (kv.1, take_col k kv.2)) <$> cols).
Proof.
  induction cols as [|[k' w] cols IH]; csimpl; [done|].
  destruct (decide (k' = c)); csimpl; [done|]. by rewrite IH.
Qed.

Lemma col_cell_take k i (col : column) :
  i < k → col_cell (take_col k col) i = col_cell col i.
Proof. intros Hi. destruct col; simpl; by rewrite lookup_take_lt. Qed.

Lemma row_at_truncate d k i c : i < k → row_at (truncate k d) i c = row_at d i c.
Proof.
  intros Hi. unfold row_at, truncate; simpl. rewrite col_lookup_take.
  destruct (col_lookup c (columns d)) as [col|]; simpl; [|done].
  by rewrite col_cell_take.
Qed.

Lemma truncate_with_indicators d k xs ys :
  with_indicators (truncate k d) (take k xs) (take k ys)
  = truncate k (with_indicators d xs ys).
Proof.
  unfold with_indicators, truncate; simpl. f_equal.
  rewrite !col_set_take. simpl.
  by rewrite !roll_mean_take, roll_corr_take.
Qed.

Lemma truncate_with_signal d k xs ys sigs :
  with_signal (truncate k d) (take k xs) (take k ys) (take k sigs)
  = truncate k (with_signal d xs ys sigs).
Proof.
  unfold with_signal. rewrite truncate_with_indicators.
  unfold truncate. cbn [index columns]. by rewrite col_set_take.
Qed.

(** [get_status] reads five cells of its row and nothing else. *)
Lemma get_status_ext (r r' : row) :
  r "Net_Liquidity" = r' "Net_Liquidity" → r "Liq_SMA_20" = r' "Liq_SMA_20" →
  r "BTC_Price" = r' "BTC_Price" → r "BTC_SMA_20" = r' "BTC_SMA_20" →
  r "Correlation" = r' "Correlation" →
  get_status r = get_status r'.
Proof. intros H1 H2 H3 H4 H5. unfold get_status. by rewrite H1, H2, H3, H4, H5. Qed.

Lemma statuses_truncate d k xs ys sigs :
  statuses d xs ys = Ok sigs →
  statuses (truncate k d) (take k xs) (take k ys) = Ok (take k sigs).
Proof.
  intros Hsigs. unfold statuses in *. rewrite truncate_with_indicators.
  simpl index. rewrite length_take, <-take_seq.
  rewrite <-(mapR_take _ _ _ k Hsigs).
  apply mapR_ext. intros i Hi.
  assert (i < k) as Hik.
  { apply list_elem_of_lookup in Hi as [j Hj].
    pose proof (lookup_lt_Some _ _ _ Hj) as Hlt. rewrite length_take in Hlt.
    rewrite lookup_take_lt in Hj by lia.
    apply lookup_seq in Hj. lia. }
  apply get_status_ext; by apply row_at_truncate.
Qed.
End truncate.

(** * Running on a result *)

Section rerun.
Context (d : DataFrame) (xs ys : list float) (sigs : list string).
Hypothesis Hx : col_lookup "Net_Liquidity" (columns d) = Some (FloatCol xs).
Hypothesis Hy : col_lookup "BTC_Price" (columns d) = Some (FloatCol ys).

(** The three numeric assignments find their values already in place. *)
Lemma with_indicators_again :
  with_indicators (with_signal d xs ys sigs) xs ys = with_signal d xs ys sigs.
Proof.
  unfold with_indicators at 1.
  rewrite (col_set_id "Liq_SMA_20"); cycle 1.
  { rewrite with_signal_lookup_other by done. apply with_indicators_liq_sma. }
  rewrite (col_set_id "BTC_SMA_20"); cycle 1.
  { rewrite with_signal_lookup_other by done. apply with_indicators_btc_sma. }
  rewrite (col_set_id "Correlation"); cycle 1.
  { rewrite with_signal_lookup_other by done. apply with_indicators_corr. }
  done.
Qed.

Lemma row_at_with_signal_other i c :
  c ≠ "Signal" →
  row_at (with_signal d xs ys sigs) i c = row_at (with_indicators d xs ys) i c.
Proof. intros Hc. unfold row_at. by rewrite with_signal_lookup_other. Qed.

Lemma statuses_again :
  statuses (with_signal d xs ys sigs) xs ys = statuses d xs ys.
Proof.
  unfold statuses. rewrite with_indicators_again. simpl index.
  apply mapR_ext. intros i _.
  apply get_status_ext; by apply row_at_with_signal_other.
Qed.

Lemma with_signal_again :
  with_signal (with_signal d xs ys sigs) xs ys sigs = with_signal d xs ys sigs.
Proof.
  unfold with_signal at 1. rewrite with_indicators_again.
  rewrite col_set_id by apply with_signal_lookup_signal. done.
Qed.
End rerun.

(** * Shape of the result *)

Lemma col_set_Forall (P : string * column → Prop) c v cols :
  Forall P cols → P (c, v) → Forall P (col_set c v cols).
Proof.
  intros Hall Hv. apply Forall_forall. intros kv Hkv.
  apply col_set_elem in Hkv as [->|Hkv]; [done|].
  rewrite Forall_forall in Hall. by apply Hall.
Qed.

Lemma with_signal_names_fresh d xs ys sigs :
  (∀ c, c ∈ derived → c ∉ col_names d) →
  col_names (with_signal d xs ys sigs) = col_names d ++ derived.
Proof.
  intros Hfresh. unfold col_names, with_signal, with_indicators; simpl.
  assert ("Liq_SMA_20" ∉ (columns d).*1) as H1
    by (apply Hfresh; labels).
  assert ("BTC_SMA_20" ∉ (columns d).*1) as H2
    by (apply Hfresh; labels).
  assert ("Correlation" ∉ (columns d).*1) as H3
    by (apply Hfresh; labels).
  assert ("Signal" ∉ (columns d).*1) as H4
    by (apply Hfresh; labels).
  rewrite (col_set_names_new "Signal"), (col_set_names_new "Correlation"),
    (col_set_names_new "BTC_SMA_20"), (col_set_names_new "Liq_SMA_20");
    rewrite ?col_set_names_elem; [|done|intuition discriminate..].
  unfold derived. by rewrite <-!app_assoc.
Qed.

Lemma with_signal_names_elem d xs ys sigs c :
  c ∈ col_names (with_signal d xs ys sigs) ↔ c ∈ col_names d ∨ c ∈ derived.
Proof.
  unfold col_names, with_signal, with_indicators; simpl.
  rewrite !col_set_names_elem. labels.
Qed.

Lemma with_signal_wf d xs ys sigs :
  wf d → length xs = length (index d) → length ys = length (index d) →
  length sigs = length (index d) →
  wf (with_signal d xs ys sigs).
Proof.
  intros [Hnd Hall] Hlx Hly Hls. split.
  - unfold col_names, with_signal, with_indicators; simpl.
    by do 4 apply col_set_NoDup.
  - unfold with_signal, with_indicators; simpl.
    repeat apply col_set_Forall; simpl;
      rewrite ?roll_mean_length, ?roll_corr_length; done.
Qed.

(** * The chain and its labels *)

Lemma label_inj s s' : label s = label s' → s = s'.
Proof. by destruct s, s'. Qed.

Lemma classify_STRONG_LONG a b c :
  classify a b c = STRONG_LONG → a = true ∧ b = true ∧ c = true.
Proof. by destruct a, b, c. Qed.

Lemma float_gt_NaN_r x : float_gt x NaN = false.
Proof. by destruct x. Qed.

Lemma float_gt_NaN_l x : float_gt NaN x = false.
Proof. done. Qed.

Lemma float_gt_irrefl x : float_gt x x = false.
Proof.
  destruct x as [|r]; [done|]. simpl. apply bool_decide_eq_false. lra.
Qed.

(** The comparison of the code is the specification's strict [>] on defined
    values. *)
Lemma float_gt_above a b : float_gt a b = true ↔ above a b.
Proof.
  destruct a as [|x], b as [|y]; simpl.
  - split; [done|]. by intros (? & ? & [=] & _).
  - split; [done|]. by intros (? & ? & [=] & _).
  - split; [done|]. by intros (? & ? & _ & [=] & _).
  - rewrite bool_decide_eq_true. split.
    + intros Hgt. by exists x, y.
    + by intros (? & ? & [= <-] & [= <-] & Hgt).
Qed.

(** [classify] on three flags is the chain on what the flags decide. *)
Lemma classify_chain (a b c : bool) (P Q R : Prop) :
  (a = true ↔ P) → (b = true ↔ Q) → (c = true ↔ R) →
  chain P Q R (classify a b c).
Proof.
  intros Ha Hb Hc.
  assert (if a then P else ¬ P) as HP
    by (destruct a; [by apply Ha|intros p; by apply Ha in p]).
  assert (if b then Q else ¬ Q) as HQ
    by (destruct b; [by apply Hb|intros q; by apply Hb in q]).
  assert (if c then R else ¬ R) as HR
    by (destruct c; [by apply Hc|intros r; by apply Hc in r]).
  destruct a, b, c; simpl; tauto.
Qed.

Lemma chain_step2 (P Q R : Prop) s :
  chain P Q R s → P → Q → R → s = STRONG_LONG.
Proof. destruct s; simpl; tauto. Qed.

Lemma chain_step3 (P Q R : Prop) s :
  chain P Q R s → ¬ P → Q → s = DIVERGENCE.
Proof. destruct s; simpl; tauto. Qed.

Lemma chain_step4 (P Q R : Prop) s :
  chain P Q R s → P → ¬ Q → s = BUY_OPPORTUNITY.
Proof. destruct s; simpl; tauto. Qed.

Lemma chain_step5_up (P Q R : Prop) s :
  chain P Q R s → P → Q → ¬ R → s = NEUTRAL.
Proof. destruct s; simpl; tauto. Qed.

Lemma not_above_NaN_l b : ¬ above NaN b.
Proof. by intros (? & ? & [=] & _). Qed.

(** The signal cell of row [i] is the [i]-th status. *)
Lemma row_at_signal d xs ys sigs i :
  row_at (with_signal d xs ys sigs) i "Signal"
  = match sigs !! i with
    | Some s => Ok (CStr s)
    | None => Raise (KeyError "Signal")
    end.
Proof.
  unfold row_at. rewrite with_signal_lookup_signal. simpl.
  by destruct (sigs !! i).
Qed.

Lemma row_at_signal_inv d xs ys sigs i s :
  row_at (with_signal d xs ys sigs) i "Signal" = Ok (CStr s) → sigs !! i = Some s.
Proof.
  rewrite row_at_signal. destruct (sigs !! i); [|done]. by intros [= ->].
Qed.

(** * Runs that return *)

Lemma calculate_signal_returns d xs ys :
  wf d →
  col_lookup "Net_Liquidity" (columns d) = Some (FloatCol xs) →
  col_lookup "BTC_Price" (columns d) = Some (FloatCol ys) →
  ∃ sigs, statuses d xs ys = Ok sigs ∧
          calculate_signal d = (Ok (), with_signal d xs ys sigs).
Proof.
  intros Hwf Hx Hy.
  destruct (statuses_total d xs ys Hx Hy Hwf) as [sigs Hsigs].
  exists sigs. split; [done|].
  by rewrite (calculate_signal_run _ _ _ Hx Hy), Hsigs.
Qed.

Lemma calculate_signal_snd d xs ys :
  wf d →
  col_lookup "Net_Liquidity" (columns d) = Some (FloatCol xs) →
  col_lookup "BTC_Price" (columns d) = Some (FloatCol ys) →
  calculate_signal d = (Ok (), (calculate_signal d).2).
Proof.
  intros Hwf Hx Hy.
  destruct (calculate_signal_returns d xs ys Hwf Hx Hy) as (sigs & _ & ->).
  done.
Qed.

Lemma run_index d out : calculate_signal d = (Ok (), out) → index out = index d.
Proof. by intros (xs & ys & sigs & _ & _ & _ & ->)%calculate_signal_inv. Qed.

(** The five numeric cells of a row of the result. *)
Lemma run_row_cells d out xs ys i :
  calculate_signal d = (Ok (), out) →
  col_lookup "Net_Liquidity" (columns d) = Some (FloatCol xs) →
  col_lookup "BTC_Price" (columns d) = Some (FloatCol ys) →
  (∀ v, xs !! i = Some v → row_at out i "Net_Liquidity" = Ok (CFloat v)) ∧
  (∀ v, roll_mean 20 xs !! i = Some v →
        row_at out i "Liq_SMA_20" = Ok (CFloat v)) ∧
  (∀ v, ys !! i = Some v → row_at out i "BTC_Price" = Ok (CFloat v)) ∧
  (∀ v, roll_mean 20 ys !! i = Some v →
        row_at out i "BTC_SMA_20" = Ok (CFloat v)) ∧
  (∀ v, roll_corr 30 xs ys !! i = Some v →
        row_at out i "Correlation" = Ok (CFloat v)).
Proof.
  intros (xs' & ys' & sigs & Hx' & Hy' & _ & ->)%calculate_signal_inv Hx Hy.
  rewrite Hx in Hx'. injection Hx' as <-.
  rewrite Hy in Hy'. injection Hy' as <-.
  repeat split; intros v Hv; (eapply row_at_float; [|exact Hv]);
    rewrite with_signal_lookup_other by done.
  - by apply with_indicators_liq.
  - apply with_indicators_liq_sma.
  - by apply with_indicators_btc.
  - apply with_indicators_btc_sma.
  - apply with_indicators_corr.
Qed.

Lemma single_row_wf : wf single_row.
Proof.
  split; [|repeat constructor].
  apply (bool_decide_unpack _). by vm_compute.
Qed.

Lemma flat_liquidity_wf : wf flat_liquidity.
Proof.
  split; [|repeat constructor].
  apply (bool_decide_unpack _). by vm_compute.
Qed.

Lemma lockstep_wf : wf lockstep.
Proof.
  split; [|repeat constructor].
  apply (bool_decide_unpack _). by vm_compute.
Qed.

Lemma single_row_run :
  calculate_signal single_row = (Ok (), (calculate_signal single_row).2).
Proof. by eapply calculate_signal_snd; [apply single_row_wf|..]. Qed.

Lemma single_row_result : calculate_signal single_row = (Ok (), single_row_out).
Proof. vm_compute. reflexivity. Qed.

Lemma flat_liquidity_run :
  calculate_signal flat_liquidity = (Ok (), (calculate_signal flat_liquidity).2).
Proof. by eapply calculate_signal_snd; [apply flat_liquidity_wf|..]. Qed.

Lemma lockstep_run :
  calculate_signal lockstep = (Ok (), (calculate_signal lockstep).2).
Proof. by eapply calculate_signal_snd; [apply lockstep_wf|..]. Qed.

Lemma scissors_wf : wf scissors.
Proof.
  split; [|repeat constructor].
  apply (bool_decide_unpack _). by vm_compute.
Qed.

Lemma scissors_run :
  calculate_signal scissors = (Ok (), (calculate_signal scissors).2).
Proof. by eapply calculate_signal_snd; [apply scissors_wf|..]. Qed.

(** * Calls *)

Lemma call_calculate_signal_ok p (h : gmap loc DataFrame) d out :
  h !! p = Some d →
  calculate_signal d = (Ok (), out) →
  call_calculate_signal p h = Some (Ok p, <[p := out]> h).
Proof.
  intros Hd Hrun. unfold call_calculate_signal. rewrite Hd. simpl.
  by rewrite Hrun.
Qed.

(** * A scenario: both series rising in lockstep *)

(** Bring the integer arguments of [IZR] and [INR] to numerals. *)
Ltac numerals :=
  rewrite ?INR_IZR_INZ;
  repeat match goal with
  | |- context [IZR ?z] =>
      lazymatch z with
      | Z0 => fail
      | Zpos _ => fail
      | Zneg _ => fail
      | _ => let z' := eval vm_compute in z in change (IZR z) with (IZR z')
      end
  end.

Section lockstep.
Local Open Scope R_scope.

Lemma Rsum_fmap_scale {A} (f : A → R) (a : R) (xs : list A) :
  Rsum ((λ x, a * f x) <$> xs) = a * Rsum (f <$> xs).
Proof. induction xs as [|x xs IH]; csimpl; [lra|]. rewrite IH. lra. Qed.

Lemma mean_scale (a : R) (rs : list R) :
  mean ((λ x, a * x) <$> rs) = a * mean rs.
Proof.
  unfold mean. rewrite length_fmap, (Rsum_fmap_scale id), list_fmap_id.
  unfold Rdiv. ring.
Qed.

Lemma zip_fmap_diag (f : R → R) (rs : list R) :
  zip rs (f <$> rs) = (λ x, (x, f x)) <$> rs.
Proof. induction rs as [|r rs IH]; csimpl; [done|]. by rewrite IH. Qed.

(** A series against a positive multiple of itself: coefficient 1. *)
Lemma pearson_scale (a : R) (rs : list R) :
  0 < a → (1 < length rs)%nat → variance rs ≠ 0 →
  pearson (zip rs ((λ x, a * x) <$> rs)) = 1.
Proof.
  intros Ha Hn Hvar.
  pose proof (INR_length_pos _ Hn) as Hn'.
  pose proof (variance_nonneg rs Hn) as Hv.
  set (qs := (λ x, a * x) <$> rs).
  assert ((zip rs qs).*1 = rs) as Hfst
    by (apply fst_zip; unfold qs; rewrite length_fmap; lia).
  assert ((zip rs qs).*2 = qs) as Hsnd
    by (apply snd_zip; unfold qs; rewrite length_fmap; lia).
  assert (mean qs = a * mean rs) as Hmq by apply mean_scale.
  assert (zip rs qs = (λ x, (x, a * x)) <$> rs) as Hzip by apply zip_fmap_diag.
  assert (variance qs = a * a * variance rs) as Hvq.
  { unfold variance. rewrite Hmq. unfold qs. rewrite length_fmap.
    rewrite <-list_fmap_compose.
    rewrite (list_fmap_ext _ (λ x, (a * a) * ((x - mean rs) * (x - mean rs))) rs)
      by (intros; simpl; ring).
    rewrite (Rsum_fmap_scale (λ x, (x - mean rs) * (x - mean rs))).
    unfold Rdiv. ring. }
  assert (covariance (zip rs qs) = a * variance rs) as Hcov.
  { unfold covariance, codeviation. rewrite Hfst, Hsnd, Hmq, Hzip.
    rewrite length_fmap, <-list_fmap_compose.
    rewrite (list_fmap_ext _ (λ x, a * ((x - mean rs) * (x - mean rs))) rs)
      by (intros; simpl; ring).
    rewrite (Rsum_fmap_scale (λ x, (x - mean rs) * (x - mean rs))).
    unfold variance, Rdiv. ring. }
  unfold pearson, stdev. rewrite Hfst, Hsnd, Hcov, Hvq.
  rewrite <-sqrt_mult by nra.
  replace (variance rs * (a * a * variance rs))
    with ((a * variance rs) * (a * variance rs)) by ring.
  rewrite sqrt_square by nra.
  field. nra.
Qed.

Lemma line_double a n : line 2 a n = (λ x, 2 * x) <$> line 1 a n.
Proof.
  unfold line. rewrite <-list_fmap_compose. apply list_fmap_ext.
  intros i k _. simpl. rewrite !mult_IZR. lra.
Qed.

(** Row 29 of the lockstep frame, the first with a full correlation window:
    coefficient 1. *)
Lemma lockstep_corr_29 :
  roll_corr 30 (Fin <$> line 1 100 40) (Fin <$> line 2 100 40) !! 29%nat
  = Some (Fin 1).
Proof.
  assert (variance (line 1 100 30) ≠ 0) as Hvx.
  { apply (variance_two_values _ (IZR (1 * 100)) (IZR (1 * 101)));
      [vm_compute; lia| | |].
    - apply list_elem_of_lookup. by exists 0%nat.
    - apply list_elem_of_lookup. by exists 1%nat.
    - intros H%eq_IZR. discriminate. }
  rewrite (roll_corr_complete 30 _ _ (line 1 100 30) (line 2 100 30));
    [|lia|vm_compute; lia|reflexivity|reflexivity|reflexivity].
  f_equal.
  assert (length (zip (line 1 100 30) (line 2 100 30)) = 30%nat) as Hlen
    by reflexivity.
  destruct (corr_obs_pearson 30 (zip (line 1 100 30) (line 2 100 30)))
    as [-> _]; [lia|lia| | |].
  - by rewrite fst_zip by (vm_compute; lia).
  - rewrite snd_zip by (vm_compute; lia).
    apply (variance_two_values _ (IZR (2 * 100)) (IZR (2 * 101)));
      [vm_compute; lia| | |].
    + apply list_elem_of_lookup. by exists 0%nat.
    + apply list_elem_of_lookup. by exists 1%nat.
    + intros H%eq_IZR. discriminate.
  - f_equal. rewrite line_double. apply pearson_scale; [lra|vm_compute; lia|done].
Qed.
End lockstep.

(** * The claims *)

(** C1: on every row of the engine's output the signal is decided by the
    priority chain, first match winning, over three strict comparisons of
    that row's own fields: STRONG_LONG when net liquidity is above its
    20-row average, price is above its 20-row average and the correlation
    is above 0.5; else DIVERGENCE when liquidity is not above and price is;
    else BUY_OPPORTUNITY when liquidity is above and price is not; else
    NEUTRAL.  "Above" is the order of the numbers, strict, and false as soon
    as one side is undefined. *)
Theorem signal_priority_chain d out i :
  calculate_signal d = (Ok (), out) →
  i < length (index out) →
  ∃ liq sma_l btc sma_b corr s,
    row_at out i "Net_Liquidity" = Ok (CFloat liq) ∧
    row_at out i "Liq_SMA_20" = Ok (CFloat sma_l) ∧
    row_at out i "BTC_Price" = Ok (CFloat btc) ∧
    row_at out i "BTC_SMA_20" = Ok (CFloat sma_b) ∧
    row_at out i "Correlation" = Ok (CFloat corr) ∧
    row_at out i "Signal" = Ok (CStr (label s)) ∧
    chain (above liq sma_l) (above btc sma_b) (above corr (Fin (1 / 2))) s.
Proof.
  intros Hrun Hi.
  destruct (calculate_signal_inv _ _ Hrun) as (xs & ys & sigs & Hx & Hy & Hsigs & Hout).
  rewrite (run_index _ _ Hrun) in Hi.
  destruct (statuses_lookup d xs ys Hx Hy sigs i Hsigs Hi)
    as (liq & sma_l & btc & sma_b & corr & H1 & H2 & H3 & H4 & H5 & H6).
  destruct (run_row_cells d out xs ys i Hrun Hx Hy) as (Kliq & Ksma_l & Kbtc & Ksma_b & Kcorr).
  exists liq, sma_l, btc, sma_b, corr.
  exists (classify (float_gt liq sma_l) (float_gt btc sma_b)
            (float_gt corr (Fin (1 / 2)))).
  split; [by apply Kliq|]. split; [by apply Ksma_l|]. split; [by apply Kbtc|].
  split; [by apply Ksma_b|]. split; [by apply Kcorr|]. split.
  - subst out. by rewrite row_at_signal, H6.
  - apply classify_chain; apply float_gt_above.
Qed.

Lemma signal_priority_chain_witness :
  row_at (calculate_signal lockstep).2 29 "Signal"
  = Ok (CStr (label STRONG_LONG)) ∧
  row_at (calculate_signal lockstep).2 20 "Signal"
  = Ok (CStr (label NEUTRAL)) ∧
  row_at (calculate_signal flat_liquidity).2 19 "Signal"
  = Ok (CStr (label DIVERGENCE)) ∧
  row_at (calculate_signal scissors).2 19 "Signal"
  = Ok (CStr (label BUY_OPPORTUNITY)).
Proof.
  split; [|split; [|split]].
  - (* both series above their averages, coefficient 1 *)
    destruct (run_row_cells lockstep _ (Fin <$> line 1 100 40)
                (Fin <$> line 2 100 40) 29 lockstep_run eq_refl eq_refl)
      as (Kliq & Ksma_l & Kbtc & Ksma_b & Kcorr).
    destruct (signal_priority_chain lockstep _ 29 lockstep_run)
      as (liq & sma_l & btc & sma_b & corr & s
          & H1 & H2 & H3 & H4 & H5 & Hs & Hchain).
    { rewrite (run_index _ _ lockstep_run). vm_compute. lia. }
    rewrite (Kliq _ eq_refl) in H1.
    rewrite (Ksma_l _ (roll_mean_complete 20 (Fin <$> line 1 100 40) (line 1 110 20) 29
                     ltac:(lia) ltac:(lia) ltac:(vm_compute; lia) eq_refl)) in H2.
    rewrite (Kbtc _ eq_refl) in H3.
    rewrite (Ksma_b _ (roll_mean_complete 20 (Fin <$> line 2 100 40) (line 2 110 20) 29
                     ltac:(lia) ltac:(lia) ltac:(vm_compute; lia) eq_refl)) in H4.
    rewrite (Kcorr _ lockstep_corr_29) in H5.
    injection H1 as <-. injection H2 as <-. injection H3 as <-.
    injection H4 as <-. injection H5 as <-.
    rewrite Hs. do 3 f_equal. apply (chain_step2 _ _ _ _ Hchain).
    + eexists _, _. split; [reflexivity|]. split; [reflexivity|].
      unfold mean, line. cbn [fmap list_fmap seq Rsum length]. numerals. lra.
    + eexists _, _. split; [reflexivity|]. split; [reflexivity|].
      unfold mean, line. cbn [fmap list_fmap seq Rsum length]. numerals. lra.
    + eexists _, _. split; [reflexivity|]. split; [reflexivity|]. lra.
  - (* both above, correlation still undefined: the last step *)
    destruct (run_row_cells lockstep _ (Fin <$> line 1 100 40)
                (Fin <$> line 2 100 40) 20 lockstep_run eq_refl eq_refl)
      as (Kliq & Ksma_l & Kbtc & Ksma_b & Kcorr).
    destruct (signal_priority_chain lockstep _ 20 lockstep_run)
      as (liq & sma_l & btc & sma_b & corr & s
          & H1 & H2 & H3 & H4 & H5 & Hs & Hchain).
    { rewrite (run_index _ _ lockstep_run). vm_compute. lia. }
    rewrite (Kliq _ eq_refl) in H1.
    rewrite (Ksma_l _ (roll_mean_complete 20 (Fin <$> line 1 100 40) (line 1 101 20) 20
                     ltac:(lia) ltac:(lia) ltac:(vm_compute; lia) eq_refl)) in H2.
    rewrite (Kbtc _ eq_refl) in H3.
    rewrite (Ksma_b _ (roll_mean_complete 20 (Fin <$> line 2 100 40) (line 2 101 20) 20
                     ltac:(lia) ltac:(lia) ltac:(vm_compute; lia) eq_refl)) in H4.
    rewrite (Kcorr _ (roll_corr_warmup 30 (Fin <$> line 1 100 40) (Fin <$> line 2 100 40) 20
                     ltac:(lia) ltac:(vm_compute; lia))) in H5.
    injection H1 as <-. injection H2 as <-. injection H3 as <-.
    injection H4 as <-. injection H5 as <-.
    rewrite Hs. do 3 f_equal. apply (chain_step5_up _ _ _ _ Hchain).
    + eexists _, _. split; [reflexivity|]. split; [reflexivity|].
      unfold mean, line. cbn [fmap list_fmap seq Rsum length]. numerals. lra.
    + eexists _, _. split; [reflexivity|]. split; [reflexivity|].
      unfold mean, line. cbn [fmap list_fmap seq Rsum length]. numerals. lra.
    + apply not_above_NaN_l.
  - (* liquidity equal to its average is not above it *)
    destruct (run_row_cells flat_liquidity _ (replicate 35 (Fin 100))
                (Fin <$> line 1 50 35) 19 flat_liquidity_run eq_refl eq_refl)
      as (Kliq & Ksma_l & Kbtc & Ksma_b & Kcorr).
    destruct (signal_priority_chain flat_liquidity _ 19 flat_liquidity_run)
      as (liq & sma_l & btc & sma_b & corr & s
          & H1 & H2 & H3 & H4 & H5 & Hs & Hchain).
    { rewrite (run_index _ _ flat_liquidity_run). vm_compute. lia. }
    rewrite (Kliq _ eq_refl) in H1.
    rewrite (Ksma_l _ (roll_mean_replicate 20 35 100 19
                     ltac:(lia) ltac:(lia) ltac:(lia))) in H2.
    rewrite (Kbtc _ eq_refl) in H3.
    rewrite (Ksma_b _ (roll_mean_complete 20 (Fin <$> line 1 50 35) (line 1 50 20) 19
                     ltac:(lia) ltac:(lia) ltac:(vm_compute; lia) eq_refl)) in H4.
    injection H1 as <-. injection H2 as <-. injection H3 as <-.
    injection H4 as <-.
    rewrite Hs. do 3 f_equal. apply (chain_step3 _ _ _ _ Hchain).
    + intros (x & y & [= <-] & [= <-] & Hgt). lra.
    + eexists _, _. split; [reflexivity|]. split; [reflexivity|].
      unfold mean, line. cbn [fmap list_fmap seq Rsum length]. numerals. lra.
  - (* liquidity above its average, price below its own *)
    destruct (run_row_cells scissors _ (Fin <$> slope 100 1 20)
                (Fin <$> slope 50 (-1) 20) 19 scissors_run eq_refl eq_refl)
      as (Kliq & Ksma_l & Kbtc & Ksma_b & Kcorr).
    destruct (signal_priority_chain scissors _ 19 scissors_run)
      as (liq & sma_l & btc & sma_b & corr & s
          & H1 & H2 & H3 & H4 & H5 & Hs & Hchain).
    { rewrite (run_index _ _ scissors_run). vm_compute. lia. }
    rewrite (Kliq _ eq_refl) in H1.
    rewrite (Ksma_l _ (roll_mean_complete 20 (Fin <$> slope 100 1 20) (slope 100 1 20) 19
                     ltac:(lia) ltac:(lia) ltac:(vm_compute; lia) eq_refl)) in H2.
    rewrite (Kbtc _ eq_refl) in H3.
    rewrite (Ksma_b _ (roll_mean_complete 20 (Fin <$> slope 50 (-1) 20) (slope 50 (-1) 20) 19
                     ltac:(lia) ltac:(lia) ltac:(vm_compute; lia) eq_refl)) in H4.
    injection H1 as <-. injection H2 as <-. injection H3 as <-.
    injection H4 as <-.
    rewrite Hs. do 3 f_equal. apply (chain_step4 _ _ _ _ Hchain).
    + eexists _, _. split; [reflexivity|]. split; [reflexivity|].
      unfold mean, slope. cbn [fmap list_fmap seq Rsum length]. numerals. lra.
    + intros (x & y & [= <-] & [= <-] & Hgt). revert Hgt.
      unfold mean, slope. cbn [fmap list_fmap seq Rsum length]. numerals. lra.
Defined.

(** C10: every row on which the 20-row averages are still undefined (rows 0
    to 18) is classified NEUTRAL: both averages are NaN there, so both trend
    comparisons are false and no other branch can be taken. *)
Theorem warmup_rows_neutral d out i :
  calculate_signal d = (Ok (), out) →
  i < 19 → i < length (index out) →
  row_at out i "Liq_SMA_20" = Ok (CFloat NaN) ∧
  row_at out i "BTC_SMA_20" = Ok (CFloat NaN) ∧
  row_at out i "Signal" = Ok (CStr (label NEUTRAL)).
Proof.
  intros (xs & ys & sigs & Hx & Hy & Hsigs & ->)%calculate_signal_inv Hi Hlen.
  simpl in Hlen.
  destruct (statuses_lookup d xs ys Hx Hy sigs i Hsigs Hlen)
    as (liq & sma_l & btc & sma_b & corr & H1 & H2 & H3 & H4 & H5 & H6).
  rewrite roll_mean_warmup in H2 by (eauto using lookup_lt_Some with lia).
  rewrite roll_mean_warmup in H4 by (eauto using lookup_lt_Some with lia).
  injection H2 as <-. injection H4 as <-.
  rewrite !float_gt_NaN_r in H6.
  split; [|split].
  - eapply row_at_float.
    + rewrite with_signal_lookup_other by done. apply with_indicators_liq_sma.
    + apply roll_mean_warmup; eauto using lookup_lt_Some with lia.
  - eapply row_at_float.
    + rewrite with_signal_lookup_other by done. apply with_indicators_btc_sma.
    + apply roll_mean_warmup; eauto using lookup_lt_Some with lia.
  - rewrite row_at_signal, H6. done.
Qed.

Lemma warmup_rows_neutral_witness :
  row_at (calculate_signal lockstep).2 18 "Liq_SMA_20" = Ok (CFloat NaN) ∧
  row_at (calculate_signal lockstep).2 18 "BTC_SMA_20" = Ok (CFloat NaN) ∧
  row_at (calculate_signal lockstep).2 18 "Signal" = Ok (CStr (label NEUTRAL)).
Proof.
  apply (warmup_rows_neutral lockstep); [apply lockstep_run|lia|].
  destruct (calculate_signal_inv _ _ lockstep_run)
    as (xs & ys & sigs & _ & _ & _ & ->).
  simpl. lia.
Defined.

(** C4: the signal computation is total.  On every frame that holds the two
    input series, a frame of a single row included, the run returns, and
    every row carries exactly one of the four signal values. *)
Theorem signal_total d :
  wf d →
  (∃ xs, col_lookup "Net_Liquidity" (columns d) = Some (FloatCol xs)) →
  (∃ ys, col_lookup "BTC_Price" (columns d) = Some (FloatCol ys)) →
  ∃ out, calculate_signal d = (Ok (), out) ∧
    length (index out) = length (index d) ∧
    ∀ i, i < length (index d) →
      ∃ s, row_at out i "Signal" = Ok (CStr (label s)) ∧
           ∀ s', row_at out i "Signal" = Ok (CStr (label s')) → s' = s.
Proof.
  intros Hwf [xs Hx] [ys Hy].
  destruct (calculate_signal_returns d xs ys Hwf Hx Hy) as (sigs & Hsigs & Hrun).
  exists (with_signal d xs ys sigs). split; [done|]. split; [done|].
  intros i Hi.
  destruct (statuses_lookup d xs ys Hx Hy sigs i Hsigs Hi)
    as (liq & sma_l & btc & sma_b & corr & _ & _ & _ & _ & _ & Hs).
  eexists. rewrite row_at_signal, Hs. split; [done|].
  intros s' [= Heq]. symmetry. by apply label_inj.
Qed.

Lemma signal_total_witness :
  ∃ out, calculate_signal single_row = (Ok (), out) ∧
    length (index out) = length (index single_row) ∧
    ∀ i, i < length (index single_row) →
      ∃ s, row_at out i "Signal" = Ok (CStr (label s)) ∧
           ∀ s', row_at out i "Signal" = Ok (CStr (label s')) → s' = s.
Proof.
  apply (signal_total single_row);
    [apply single_row_wf|by eexists|by eexists].
Defined.



(** C7: no look-ahead.  Running the engine on the first [k] rows of a frame
    gives, for those rows, the very fields the run on the whole frame gives:
    the result on the truncated frame is the truncated result. *)
Theorem no_look_ahead d out k :
  calculate_signal d = (Ok (), out) →
  calculate_signal (truncate k d) = (Ok (), truncate k out).
Proof.
  intros (xs & ys & sigs & Hx & Hy & Hsigs & ->)%calculate_signal_inv.
  assert (col_lookup "Net_Liquidity" (columns (truncate k d))
          = Some (FloatCol (take k xs))) as Hx'.
  { unfold truncate; simpl. by rewrite col_lookup_take, Hx. }
  assert (col_lookup "BTC_Price" (columns (truncate k d))
          = Some (FloatCol (take k ys))) as Hy'.
  { unfold truncate; simpl. by rewrite col_lookup_take, Hy. }
  rewrite (calculate_signal_run _ _ _ Hx' Hy').
  by rewrite (statuses_truncate _ _ _ _ _ Hsigs), truncate_with_signal.
Qed.

Lemma no_look_ahead_witness :
  calculate_signal (truncate 25 lockstep)
  = (Ok (), truncate 25 (calculate_signal lockstep).2).
Proof. apply (no_look_ahead lockstep), lockstep_run. Defined.

(** C8: idempotence.  Running the engine on its own output returns that
    output unchanged; so a second call on the same table object leaves the
    store as the first call left it. *)
Theorem engine_idempotent d out :
  calculate_signal d = (Ok (), out) →
  calculate_signal out = (Ok (), out) ∧
  ∀ p (h : gmap loc DataFrame), h !! p = Some d →
    ∃ h', call_calculate_signal p h = Some (Ok p, h') ∧
          call_calculate_signal p h' = Some (Ok p, h').
Proof.
  intros Hrun.
  assert (calculate_signal out = (Ok (), out)) as Hagain.
  { apply calculate_signal_inv in Hrun
      as (xs & ys & sigs & Hx & Hy & Hsigs & ->).
    assert (col_lookup "Net_Liquidity" (columns (with_signal d xs ys sigs))
            = Some (FloatCol xs)) as Hx'.
    { rewrite with_signal_lookup_input; [done|]. labels. }
    assert (col_lookup "BTC_Price" (columns (with_signal d xs ys sigs))
            = Some (FloatCol ys)) as Hy'.
    { rewrite with_signal_lookup_input; [done|]. labels. }
    rewrite (calculate_signal_run _ _ _ Hx' Hy').
    by rewrite statuses_again, Hsigs, with_signal_again. }
  split; [done|]. intros p h Hp. exists (<[p := out]> h). split.
  - by apply (call_calculate_signal_ok _ _ d).
  - rewrite <-(insert_insert_eq h p out out) at 2.
    apply (call_calculate_signal_ok _ _ out); [apply lookup_insert_eq|done].
Qed.

Lemma engine_idempotent_witness :
  calculate_signal (calculate_signal lockstep).2
  = (Ok (), (calculate_signal lockstep).2) ∧
  ∀ p (h : gmap loc DataFrame), h !! p = Some lockstep →
    ∃ h', call_calculate_signal p h = Some (Ok p, h') ∧
          call_calculate_signal p h' = Some (Ok p, h').
Proof. apply (engine_idempotent lockstep), lockstep_run. Defined.

(** C9: on a frame that does not yet carry the derived labels, the output
    has the rows of the input in the same order, the input columns as they
    were, and after them exactly the four derived columns, each with one
    value per row. *)
Theorem output_shape d out :
  wf d →
  (∀ c, c ∈ derived → c ∉ col_names d) →
  calculate_signal d = (Ok (), out) →
  index out = index d ∧
  length (index out) = length (index d) ∧
  col_names out = col_names d ++ derived ∧
  (∀ c, c ∈ col_names d → col_lookup c (columns out) = col_lookup c (columns d)) ∧
  wf out.
Proof.
  intros Hwf Hfresh (xs & ys & sigs & Hx & Hy & Hsigs & ->)%calculate_signal_inv.
  split; [done|]. split; [done|].
  split; [by apply with_signal_names_fresh|].
  split.
  - intros c Hc. apply with_signal_lookup_input. intros Hd.
    by apply (Hfresh c).
  - pose proof Hwf as [_ Hall]. rewrite Forall_forall in Hall.
    pose proof (Hall _ (col_lookup_Some_elem _ _ _ Hx)) as Hlx.
    pose proof (Hall _ (col_lookup_Some_elem _ _ _ Hy)) as Hly.
    apply with_signal_wf; [done..|].
    by eapply statuses_length.
Qed.

Lemma output_shape_witness :
  index (calculate_signal lockstep).2 = index lockstep ∧
  length (index (calculate_signal lockstep).2) = length (index lockstep) ∧
  col_names (calculate_signal lockstep).2 = col_names lockstep ++ derived ∧
  (∀ c, c ∈ col_names lockstep →
     col_lookup c (columns (calculate_signal lockstep).2)
     = col_lookup c (columns lockstep)) ∧
  wf (calculate_signal lockstep).2.
Proof.
  apply (output_shape lockstep); [apply lockstep_wf| |apply lockstep_run].
  intros c Hc. unfold derived in Hc.
  repeat (apply elem_of_cons in Hc as [->|Hc]);
    [by apply (bool_decide_unpack _)..|by apply elem_of_nil in Hc].
Defined.

(** C5 as stated fails: the call changes the object the caller passed.  With
    the one-row frame at address 1, the call returns address 1, and the frame
    behind it has become [single_row_out], which carries four labels the
    caller's frame did not have. *)
Lemma engine_mutates_input :
  call_calculate_signal 1%positive {[1%positive := single_row]}
  = Some (Ok 1%positive, <[1%positive := single_row_out]> {[1%positive := single_row]})
  ∧ (<[1%positive := single_row_out]>
       ({[1%positive := single_row]} : gmap loc DataFrame)) !! 1%positive
    = Some single_row_out
  ∧ col_names single_row_out ≠ col_names single_row.
Proof.
  split; [|split].
  - apply (call_calculate_signal_ok _ _ single_row); [apply lookup_singleton_eq|].
    apply single_row_result.
  - apply lookup_insert_eq.
  - vm_compute. discriminate.
Qed.

(** C5, amended: the only effect of a call is on the frame object it is
    given.  The call returns the reference it received; every other object of
    the store is untouched; on the object itself the index and every column
    other than the four derived ones (so the two input series) are as before,
    and the labels present afterwards are the former ones and the four
    derived ones. *)
Theorem engine_effect_confined p h q h' :
  call_calculate_signal p h = Some (Ok q, h') →
  q = p ∧
  (∀ p', p' ≠ p → h' !! p' = h !! p') ∧
  ∃ d out,
    h !! p = Some d ∧ h' !! p = Some out ∧
    calculate_signal d = (Ok (), out) ∧
    index out = index d ∧
    (∀ c, c ∉ derived → col_lookup c (columns out) = col_lookup c (columns d)) ∧
    (∀ c, c ∈ col_names out ↔ c ∈ col_names d ∨ c ∈ derived).
Proof.
  unfold call_calculate_signal. intros Hcall.
  destruct (h !! p) as [d|] eqn:Hd; simpl in Hcall; [|done].
  destruct (calculate_signal d) as [[[]|e] out] eqn:Hrun; simpl in Hcall; [|done].
  injection Hcall as <- <-.
  split; [done|]. split.
  { intros p' Hp'. by rewrite lookup_insert_ne. }
  exists d, out. rewrite lookup_insert_eq.
  destruct (calculate_signal_inv _ _ Hrun)
    as (xs & ys & sigs & Hx & Hy & Hsigs & ->).
  repeat (split; [done|]). split.
  - intros c Hc. by apply with_signal_lookup_input.
  - intros c. apply with_signal_names_elem.
Qed.

Lemma engine_effect_confined_witness :
  1%positive = 1%positive ∧
  (∀ p', p' ≠ 1%positive →
     (<[1%positive := (calculate_signal single_row).2]>
        ({[1%positive := single_row]} : gmap loc DataFrame)) !! p'
     = ({[1%positive := single_row]} : gmap loc DataFrame) !! p') ∧
  ∃ d out,
    ({[1%positive := single_row]} : gmap loc DataFrame) !! 1%positive = Some d ∧
    (<[1%positive := (calculate_signal single_row).2]>
       ({[1%positive := single_row]} : gmap loc DataFrame)) !! 1%positive
    = Some out ∧
    calculate_signal d = (Ok (), out) ∧
    index out = index d ∧
    (∀ c, c ∉ derived → col_lookup c (columns out) = col_lookup c (columns d)) ∧
    (∀ c, c ∈ col_names out ↔ c ∈ col_names d ∨ c ∈ derived).
Proof.
  apply (engine_effect_confined 1%positive {[1%positive := single_row]}).
  apply (call_calculate_signal_ok _ _ single_row); [apply lookup_singleton_eq|].
  apply single_row_run.
Defined.

(** * Runs that fail *)

(** The frame once only the first indicator is assigned. *)
Lemma calculate_signal_price_failure d xs :
  col_lookup "Net_Liquidity" (columns d) = Some (FloatCol xs) →
  col_lookup "BTC_Price" (columns d) = None →
  calculate_signal d
  = (Raise (KeyError "BTC_Price"),
     mkDataFrame (index d)
       (col_set "Liq_SMA_20" (FloatCol (roll_mean 20 xs)) (columns d))).
Proof.
  intros Hx Hy. unfold calculate_signal.
  rewrite (step_getitem _ _ _ _ Hx). simpl rolling_mean.
  rewrite step_lift_ok, step_setitem.
  rewrite step_getitem_raise by (simpl; by rewrite col_lookup_set_ne).
  done.
Qed.

Lemma calculate_signal_liquidity_failure d :
  col_lookup "Net_Liquidity" (columns d) = None →
  calculate_signal d = (Raise (KeyError "Net_Liquidity"), d).
Proof.
  intros Hx. unfold calculate_signal. by rewrite (step_getitem_raise _ _ _ Hx).
Qed.

(** X1: which runs fail.  On a well-formed frame whose two input columns
    are numeric where they are present, a run fails exactly when one of
    them is missing, and then with a KeyError that names the first missing
    one: Net_Liquidity, which is read first, or else BTC_Price.  With both
    present the run returns. *)
Theorem engine_fails_on_a_missing_input d :
  wf d →
  (∀ c ss, c ∈ ["Net_Liquidity"; "BTC_Price"] →
           col_lookup c (columns d) ≠ Some (ObjCol ss)) →
  (calculate_signal d).1
  = match col_lookup "Net_Liquidity" (columns d),
          col_lookup "BTC_Price" (columns d) with
    | None, _ => Raise (KeyError "Net_Liquidity")
    | Some _, None => Raise (KeyError "BTC_Price")
    | Some _, Some _ => Ok ()
    end.
Proof.
  intros Hwf Hnum.
  destruct (col_lookup "Net_Liquidity" (columns d)) as [[xs|ss]|] eqn:Hx.
  - destruct (col_lookup "BTC_Price" (columns d)) as [[ys|ss]|] eqn:Hy.
    + by erewrite calculate_signal_snd.
    + destruct (Hnum "BTC_Price" ss); [labels|done].
    + by rewrite (calculate_signal_price_failure d xs Hx Hy).
  - destruct (Hnum "Net_Liquidity" ss); [labels|done].
  - by rewrite (calculate_signal_liquidity_failure d Hx).
Qed.

Lemma engine_fails_on_a_missing_input_witness :
  (calculate_signal (mkDataFrame [19000%Z] [("Net_Liquidity", FloatCol [Fin 100])])).1
  = Raise (KeyError "BTC_Price").
Proof.
  apply (engine_fails_on_a_missing_input
           (mkDataFrame [19000%Z] [("Net_Liquidity", FloatCol [Fin 100])])).
  - split; [|repeat constructor]. apply (bool_decide_unpack _). by vm_compute.
  - intros c ss Hc. repeat (apply elem_of_cons in Hc as [->|Hc]);
      [done..|by apply elem_of_nil in Hc].
Defined.



(** X3: when the liquidity column is missing, the call fails on its first
    statement with KeyError on [Net_Liquidity], before any assignment: the
    store is exactly as it was. *)
Theorem missing_liquidity_call_changes_nothing p (h : gmap loc DataFrame) d :
  h !! p = Some d →
  col_lookup "Net_Liquidity" (columns d) = None →
  call_calculate_signal p h = Some (Raise (KeyError "Net_Liquidity"), h).
Proof.
  intros Hp Hx. unfold call_calculate_signal. rewrite Hp. simpl.
  rewrite (calculate_signal_liquidity_failure d Hx). simpl.
  by rewrite insert_id.
Qed.

Lemma missing_liquidity_call_changes_nothing_witness :
  call_calculate_signal 1%positive
    {[1%positive := mkDataFrame [19000%Z] [("BTC_Price", FloatCol [Fin 50])]]}
  = Some (Raise (KeyError "Net_Liquidity"),
          {[1%positive := mkDataFrame [19000%Z] [("BTC_Price", FloatCol [Fin 50])]]}).
Proof.
  apply (missing_liquidity_call_changes_nothing 1%positive _
           (mkDataFrame [19000%Z] [("BTC_Price", FloatCol [Fin 50])]));
    [apply lookup_singleton_eq|reflexivity].
Defined.

(** * A missing value *)

Section history.
Context {A : Type}.
Implicit Types (xs : list A) (w i j : nat).

(** Row [j] sits in the window of every row from [j] to [j + w - 1]. *)
Lemma window_lookup w i j xs :
  j ≤ i → i < j + w → window w i xs !! (j - (S i - w)) = xs !! j.
Proof.
  intros Hji Hij. unfold window. rewrite lookup_drop.
  rewrite lookup_take_lt by lia. f_equal. lia.
Qed.
End history.

Lemma omap_finite_NaN (l : list float) :
  NaN ∈ l → length (omap finite l) < length l.
Proof.
  induction l as [|x l IH]; [by intros ?%elem_of_nil|].
  intros [<-|Hin]%elem_of_cons; csimpl.
  - pose proof (length_omap_le finite l). lia.
  - specialize (IH Hin). destruct (finite x); simpl; lia.
Qed.

Lemma omap_pair_obs_NaN (l : list (float * float)) y :
  (NaN, y) ∈ l → length (omap pair_obs l) < length l.
Proof.
  induction l as [|p l IH]; [by intros ?%elem_of_nil|].
  intros [<-|Hin]%elem_of_cons; csimpl.
  - pose proof (length_omap_le pair_obs l). lia.
  - specialize (IH Hin). destruct (pair_obs p); simpl; lia.
Qed.

(** A NaN in the series blanks the rolling mean of the [w] rows whose window
    holds it. *)
Lemma roll_mean_NaN w xs i j :
  xs !! j = Some NaN → j ≤ i → i < j + w → i < length xs →
  roll_mean w xs !! i = Some NaN.
Proof.
  intros Hj Hji Hij Hi. rewrite roll_mean_lookup by done. f_equal.
  apply mean_obs_short.
  assert (NaN ∈ window w i xs) as Hin.
  { apply list_elem_of_lookup. exists (j - (S i - w)).
    by rewrite window_lookup. }
  pose proof (omap_finite_NaN _ Hin).
  pose proof (window_length_le w i xs). lia.
Qed.

Lemma roll_corr_NaN w xs ys i j y :
  xs !! j = Some NaN → ys !! j = Some y → j ≤ i → i < j + w → i < length xs →
  roll_corr w xs ys !! i = Some NaN.
Proof.
  intros Hj Hy Hji Hij Hi. rewrite roll_corr_lookup by done. f_equal.
  apply corr_obs_short.
  assert ((NaN, y) ∈ window w i (zip xs ys)) as Hin.
  { apply list_elem_of_lookup. exists (j - (S i - w)).
    rewrite window_lookup by done.
    rewrite lookup_zip_with, Hj, Hy. done. }
  pose proof (omap_pair_obs_NaN _ _ Hin).
  pose proof (window_length_le w i (zip xs ys)). lia.
Qed.

Lemma wf_col_length d c col :
  wf d → col_lookup c (columns d) = Some col → col_length col = length (index d).
Proof.
  intros [_ Hall] Hc. rewrite Forall_forall in Hall.
  apply (Hall _ (col_lookup_Some_elem _ _ _ Hc)).
Qed.

Lemma gap_frame_wf : wf gap_frame.
Proof.
  split; [|repeat constructor].
  apply (bool_decide_unpack _). by vm_compute.
Qed.

Lemma gap_frame_run :
  calculate_signal gap_frame = (Ok (), (calculate_signal gap_frame).2).
Proof. by eapply calculate_signal_snd; [apply gap_frame_wf|..]. Qed.

(** X18: the correlation is undefined (NaN) on every row before its 30-row
    window is complete, that is on the rows of index 0 to 28. *)
Theorem correlation_undefined_in_warmup d out i :
  calculate_signal d = (Ok (), out) →
  i < 29 → i < length (index out) →
  row_at out i "Correlation" = Ok (CFloat NaN).
Proof.
  intros Hrun Hi Hlen.
  destruct (calculate_signal_inv _ _ Hrun)
    as (xs & ys & sigs & Hx & Hy & Hsigs & _).
  rewrite (run_index _ _ Hrun) in Hlen.
  destruct (statuses_lookup d xs ys Hx Hy sigs i Hsigs Hlen)
    as (liq & _ & _ & _ & _ & H1 & _).
  destruct (run_row_cells d out xs ys i Hrun Hx Hy) as (_ & _ & _ & _ & Kcorr).
  apply Kcorr, roll_corr_warmup; [lia|]. by eapply lookup_lt_Some.
Qed.

Lemma correlation_undefined_in_warmup_witness :
  row_at (calculate_signal lockstep).2 28 "Correlation" = Ok (CFloat NaN).
Proof.
  apply (correlation_undefined_in_warmup lockstep); [apply lockstep_run|lia|].
  rewrite (run_index _ _ lockstep_run). vm_compute. lia.
Defined.

(** X5: how far a missing value reaches.  A NaN in the liquidity series at
    row [j] makes the liquidity average NaN on every row from [j] to
    [j + 19] and the correlation NaN on every row from [j] to [j + 29]; on
    the first of these ranges the signal can only be DIVERGENCE or NEUTRAL,
    and on the second it is never STRONG_LONG.  (Nothing is said here about
    the rows after these ranges.) *)
Theorem missing_liquidity_blanks_its_windows d out xs j :
  calculate_signal d = (Ok (), out) →
  col_lookup "Net_Liquidity" (columns d) = Some (FloatCol xs) →
  xs !! j = Some NaN →
  (∀ i, j ≤ i → i < j + 20 → i < length (index d) →
     row_at out i "Liq_SMA_20" = Ok (CFloat NaN) ∧
     (row_at out i "Signal" = Ok (CStr (label DIVERGENCE)) ∨
      row_at out i "Signal" = Ok (CStr (label NEUTRAL)))) ∧
  (∀ i, j ≤ i → i < j + 30 → i < length (index d) →
     row_at out i "Correlation" = Ok (CFloat NaN) ∧
     row_at out i "Signal" ≠ Ok (CStr (label STRONG_LONG))).
Proof.
  intros (xs0 & ys & sigs & Hx & Hy & Hsigs & ->)%calculate_signal_inv Hx' Hj.
  assert (xs0 = xs) as -> by congruence.
  assert (j < length (index d)
          → ∃ y, ys !! j = Some y) as Hyj.
  { intros Hlt.
    destruct (statuses_lookup d xs ys Hx Hy sigs j Hsigs Hlt)
      as (_ & _ & y & _ & _ & _ & _ & ? & _). eauto. }
  split.
  - intros i Hji Hij Hi.
    destruct (statuses_lookup d xs ys Hx Hy sigs i Hsigs Hi)
      as (liq & sl & btc & sb & co & G1 & G2 & G3 & G4 & G5 & G6).
    rewrite (roll_mean_NaN 20 xs i j) in G2
      by (done || eauto using lookup_lt_Some).
    injection G2 as <-. rewrite float_gt_NaN_r in G6.
    split.
    + eapply row_at_float.
      * rewrite with_signal_lookup_other by done. apply with_indicators_liq_sma.
      * apply (roll_mean_NaN 20 xs i j); done || eauto using lookup_lt_Some.
    + rewrite row_at_signal, G6. unfold classify. simpl.
      destruct (float_gt btc sb); auto.
  - intros i Hji Hij Hi.
    destruct (Hyj ltac:(lia)) as [y Hy'].
    destruct (statuses_lookup d xs ys Hx Hy sigs i Hsigs Hi)
      as (liq & sl & btc & sb & co & G1 & G2 & G3 & G4 & G5 & G6).
    rewrite (roll_corr_NaN 30 xs ys i j y) in G5
      by (done || eauto using lookup_lt_Some).
    injection G5 as <-.
    split.
    + eapply row_at_float.
      * rewrite with_signal_lookup_other by done. apply with_indicators_corr.
      * apply (roll_corr_NaN 30 xs ys i j y); done || eauto using lookup_lt_Some.
    + rewrite row_at_signal, G6. intros [= Heq].
      apply (label_inj _ STRONG_LONG), classify_STRONG_LONG in Heq
        as (_ & _ & ?).
      done.
Qed.

Lemma missing_liquidity_blanks_its_windows_witness :
  (∀ i, 2 ≤ i → i < 2 + 20 → i < length (index gap_frame) →
     row_at (calculate_signal gap_frame).2 i "Liq_SMA_20" = Ok (CFloat NaN) ∧
     (row_at (calculate_signal gap_frame).2 i "Signal"
      = Ok (CStr (label DIVERGENCE)) ∨
      row_at (calculate_signal gap_frame).2 i "Signal"
      = Ok (CStr (label NEUTRAL)))) ∧
  (∀ i, 2 ≤ i → i < 2 + 30 → i < length (index gap_frame) →
     row_at (calculate_signal gap_frame).2 i "Correlation" = Ok (CFloat NaN) ∧
     row_at (calculate_signal gap_frame).2 i "Signal"
     ≠ Ok (CStr (label STRONG_LONG))).
Proof.
  apply (missing_liquidity_blanks_its_windows gap_frame _
           (<[2 := NaN]> (Fin <$> line 1 100 25)) 2);
    [apply gap_frame_run|reflexivity|reflexivity].
Defined.

(** * The live price *)

Section live_price.
Implicit Types (xs : list float) (y : yf_frame).

Lemma iloc_neg_last xs : iloc_neg 1 xs = last xs.
Proof.
  unfold iloc_neg. rewrite last_lookup.
  destruct xs as [|x xs]; [done|].
  rewrite decide_True by (simpl; lia). f_equal. simpl. lia.
Qed.

Lemma iloc_neg_app_2 xs a b :
  iloc_neg 1 (xs ++ [a; b]) = Some b ∧ iloc_neg 2 (xs ++ [a; b]) = Some a.
Proof.
  unfold iloc_neg. rewrite !length_app. simpl.
  rewrite !decide_True by lia. split.
  - rewrite lookup_app_r by lia.
    by replace (length xs + 2 - 1 - length xs) with 1 by lia.
  - rewrite lookup_app_r by lia.
    by replace (length xs + 2 - 2 - length xs) with 0 by lia.
Qed.

Lemma close_from_end_Some k data x :
  close_from_end k data = Some x →
  ∃ closes, select_label "Close" (columns data) = OneColumn (FloatCol closes) ∧
            iloc_neg k closes = Some x.
Proof.
  unfold close_from_end.
  destruct (select_label _ _) as [|[closes|ss]|]; try done. eauto.
Qed.

Lemma py_div_Some a b q : py_div a b = Some q → b ≠ Fin 0 ∧ q = float_div a b.
Proof.
  unfold py_div. destruct b as [|y].
  - intros [= <-]. split; [done|]. by destruct a.
  - destruct (decide (y = 0%R)) as [->|Hy]; [done|].
    intros [= <-]. split; [|done]. by intros [= ->].
Qed.

(** X7: what the live probe returns.  Either nothing at all (no price, no
    change), or both a price and a change; the price is then the last value
    of the one [Close] column of the download, and the change is 0 when the
    download has a single row, and otherwise the move from the close before
    it, in percent of that close, which is then not zero. *)
Theorem live_price_cases download :
  get_realtime_btc_price download = (None, None) ∨
  ∃ y closes cur change,
    download = Some y ∧
    select_label "Close" (level0_columns y) = OneColumn (FloatCol closes) ∧
    last closes = Some cur ∧
    get_realtime_btc_price download = (Some cur, Some change) ∧
    ((length (yf_index y) = 1 ∧ change = Fin 0) ∨
     (2 ≤ length (yf_index y) ∧
      ∃ prev, iloc_neg 2 closes = Some prev ∧ prev ≠ Fin 0 ∧
              change = float_mul (float_div (float_sub cur prev) prev) (Fin 100))).
Proof.
  unfold get_realtime_btc_price, realtime_try.
  destruct download as [y|]; simpl; [|by left].
  destruct (decide (2 ≤ length (yf_index y))) as [H2|H2].
  - destruct (close_from_end 1 (flattened y)) as [cur|] eqn:Hcur; simpl; [|by left].
    destruct (close_from_end 2 (flattened y)) as [prev|] eqn:Hprev; simpl; [|by left].
    destruct (py_div (float_sub cur prev) prev) as [q|] eqn:Hq; simpl; [|by left].
    apply close_from_end_Some in Hcur as (closes & Hsel & Hlast).
    apply close_from_end_Some in Hprev as (closes' & Hsel' & Hprev).
    rewrite Hsel in Hsel'. injection Hsel' as <-.
    apply py_div_Some in Hq as [Hnz ->].
    right. exists y, closes, cur. eexists.
    rewrite <-iloc_neg_last. repeat (split; [done|]).
    right. split; [done|]. by exists prev.
  - destruct (decide (length (yf_index y) = 1)) as [H1|H1]; [|by left].
    destruct (close_from_end 1 (flattened y)) as [cur|] eqn:Hcur; simpl; [|by left].
    apply close_from_end_Some in Hcur as (closes & Hsel & Hlast).
    right. exists y, closes, cur, (Fin 0).
    rewrite <-iloc_neg_last. repeat (split; [done|]). by left.
Qed.

(** X9: a previous close of exactly zero makes the division raise, the
    handler swallows it, and the probe returns nothing, although a current
    close is there. *)
Theorem live_price_zero_previous_close y closes (cur : float) :
  select_label "Close" (level0_columns y)
  = OneColumn (FloatCol (closes ++ [Fin 0; cur])) →
  2 ≤ length (yf_index y) →
  get_realtime_btc_price (Some y) = (None, None).
Proof.
  intros Hsel Hlen.
  unfold get_realtime_btc_price, realtime_try. simpl.
  rewrite decide_True by done.
  unfold close_from_end. simpl. rewrite Hsel.
  destruct (iloc_neg_app_2 closes (Fin 0) cur) as [-> ->]. simpl.
  by rewrite decide_True.
Qed.

Lemma live_price_zero_previous_close_witness :
  get_realtime_btc_price
    (Some (mk_yf_frame [19000; 19001]%Z (PlainLabels [("Close", [Fin 0; Fin 60])])))
  = (None, None).
Proof.
  apply (live_price_zero_previous_close
           (mk_yf_frame [19000; 19001]%Z (PlainLabels [("Close", [Fin 0; Fin 60])]))
           [] (Fin 60));
    [reflexivity|simpl; lia].
Defined.
End live_price.

(** * Cleaning the FRED frame: [ffill] and [dropna] *)

Section gather.
Context {A : Type}.
Implicit Types (pos : list nat) (xs : list A).

Lemma gather_lookup pos xs k :
  Forall (λ i, i < length xs) pos →
  gather pos xs !! k = pos !! k ≫= (xs !!.).
Proof.
  intros Hpos. revert k. induction Hpos as [|i pos Hi Hpos IH]; intros k; [done|].
  unfold gather in *. csimpl.
  destruct (lookup_lt_is_Some_2 xs i Hi) as [x Hx]. rewrite Hx. simpl.
  destruct k as [|k]; simpl; [done|]. apply IH.
Qed.

Lemma length_gather pos xs :
  Forall (λ i, i < length xs) pos → length (gather pos xs) = length pos.
Proof.
  induction 1 as [|i pos Hi Hpos IH]; [done|].
  unfold gather in *. csimpl.
  destruct (lookup_lt_is_Some_2 xs i Hi) as [x ->]. simpl. by rewrite IH.
Qed.

Lemma elem_of_gather pos xs x :
  x ∈ gather pos xs → ∃ i, i ∈ pos ∧ xs !! i = Some x.
Proof. unfold gather. rewrite list_elem_of_omap. by intros (i & ? & ?); exists i. Qed.

Lemma gather_seq k m xs :
  k + m ≤ length xs → gather (seq k m) xs = take m (drop k xs).
Proof.
  intros Hlen. apply list_eq. intros j.
  rewrite gather_lookup by (apply Forall_forall; intros i ?%elem_of_seq; lia).
  destruct (decide (j < m)) as [Hj|Hj].
  - rewrite lookup_seq_lt by done. simpl.
    by rewrite lookup_take_lt, lookup_drop by done.
  - rewrite lookup_seq_ge by lia. simpl.
    by rewrite lookup_take_ge by lia.
Qed.
End gather.

(** A predicate on positions that, once true, stays true, keeps a final
    segment. *)
Lemma filter_seq_monotone (m : nat → bool) n :
  (∀ i, S i < n → m i = true → m (S i) = true) →
  ∃ k, k ≤ n ∧ filter (λ i, m i = true) (seq 0 n) = seq k (n - k).
Proof.
  induction n as [|n IH]; intros Hmono.
  { exists 0. split; [done|]. reflexivity. }
  destruct IH as (k & Hk & Hfil); [intros i Hi; apply Hmono; lia|].
  rewrite seq_S, filter_app, Hfil. simpl.
  rewrite filter_cons, filter_nil.
  destruct (decide (m n = true)) as [Hn|Hn].
  - exists k. split; [lia|].
    replace (S n - k) with (S (n - k)) by lia.
    rewrite seq_S. do 2 f_equal. lia.
  - (* the last position fails, so every position fails *)
    assert (k = n) as ->.
    { destruct (decide (k = n)) as [|Hne]; [done|]. exfalso.
      assert (m (n - 1) = true) as Hlast.
      { assert (n - 1 ∈ filter (λ i, m i = true) (seq 0 n)) as Hin
          by (rewrite Hfil; apply elem_of_seq; lia).
        by apply list_elem_of_filter in Hin as [? _]. }
      apply Hn. replace n with (S (n - 1)) at 1 by lia.
      apply Hmono; [lia|done]. }
    exists (S n). split; [done|].
    replace (S n - S n) with 0 by lia. replace (n - n) with 0 by lia. done.
Qed.

Section ffill.
Implicit Types (xs : list float) (d : DataFrame).

Lemma length_ffill_from last xs : length (ffill_from last xs) = length xs.
Proof. revert last. induction xs as [|x xs IH]; intros last; simpl; [done|]. by rewrite IH. Qed.

(** Once a forward-filled column has a value, it has one on every later
    row. *)
Lemma ffill_from_stays_filled last xs i v :
  ffill_from last xs !! i = Some (Fin v) → S i < length xs →
  ∃ v', ffill_from last xs !! S i = Some (Fin v').
Proof.
  revert last i. induction xs as [|x xs IH]; intros last i; [done|].
  destruct i as [|i]; simpl.
  - intros [= Hv] Hlen. destruct xs as [|x' xs]; [simpl in Hlen; lia|].
    simpl. rewrite Hv. destruct x'; eauto.
  - intros Hi Hlen. apply (IH _ i); [done|lia].
Qed.

Lemma col_length_ffill c : col_length (ffill_col c) = col_length c.
Proof. destruct c; simpl; [apply length_ffill_from|done]. Qed.

Lemma ffill_wf d : wf d → wf (ffill d).
Proof.
  intros [Hnd Hall]. split.
  - unfold col_names, ffill in *; simpl. by rewrite <-list_fmap_compose.
  - unfold ffill; simpl. apply Forall_fmap. eapply Forall_impl; [exact Hall|].
    intros [k c] Hc; simpl in *. by rewrite col_length_ffill.
Qed.

Lemma cell_notna_ffill_mono c i :
  S i < col_length c →
  cell_notna (ffill_col c) i = true → cell_notna (ffill_col c) (S i) = true.
Proof.
  destruct c as [xs|ss]; simpl; [|done]. intros Hlen.
  destruct (ffill_from NaN xs !! i) as [[|v]|] eqn:Hi; [done| |].
  - intros _. destruct (ffill_from_stays_filled NaN xs i v Hi Hlen) as [v' ->]. done.
  - apply lookup_ge_None in Hi. rewrite length_ffill_from in Hi. lia.
Qed.

Lemma row_notna_ffill_mono d i :
  wf d → S i < length (index d) →
  row_notna (ffill d) i = true → row_notna (ffill d) (S i) = true.
Proof.
  intros [_ Hall] Hi. unfold row_notna, ffill; simpl.
  rewrite !forallb_forall. intros Hrow kv Hkv.
  apply list_elem_of_In, list_elem_of_fmap in Hkv as ([k c] & -> & Hin). simpl.
  apply cell_notna_ffill_mono.
  - rewrite Forall_forall in Hall. pose proof (Hall _ Hin) as Hl.
    simpl in Hl. lia.
  - apply (Hrow (k, ffill_col c)).
    apply list_elem_of_In, list_elem_of_fmap. by exists (k, c).
Qed.

Lemma gather_col_seq k m c :
  k + m = col_length c → gather_col (seq k m) c = drop_col k c.
Proof.
  destruct c as [xs|ss]; simpl; intros Hlen; f_equal.
  - rewrite gather_seq by lia. apply take_ge. rewrite length_drop. lia.
  - rewrite gather_seq by lia. apply take_ge. rewrite length_drop. lia.
Qed.

Lemma take_rows_seq k m d :
  wf d → k + m = length (index d) → take_rows (seq k m) d = drop_rows k d.
Proof.
  intros [_ Hall] Hlen. unfold take_rows, drop_rows. f_equal.
  - rewrite gather_seq by lia. apply take_ge. rewrite length_drop. lia.
  - apply Forall_fmap_ext. eapply Forall_impl; [exact Hall|].
    intros [c col] Hc; simpl in *. f_equal. apply gather_col_seq. lia.
Qed.


Lemma fred_sample_wf : wf fred_sample.
Proof.
  split; [|repeat constructor].
  apply (bool_decide_unpack _). by vm_compute.
Qed.

End ffill.

(** * Fetching: [get_market_data] *)

Section fetch.
Implicit Types (d : DataFrame) (y : yf_frame) (c : string).
Implicit Types (cols : list (string * column)) (pos : list nat).
Implicit Types (xs w t r cs : list float).

Lemma col_lookup_fmap (f : column → column) c cols :
  col_lookup c ((λ kv : string * column, (kv.1, f kv.2)) <$> cols)
  = f <$> col_lookup c cols.
Proof.
  induction cols as [|[k v] cols IH]; csimpl; [done|].
  destruct (decide (k = c)); [done|apply IH].
Qed.

Lemma complete_rows_spec d i :
  i ∈ complete_rows d ↔ i < length (index d) ∧ row_notna d i = true.
Proof.
  unfold complete_rows. rewrite list_elem_of_filter, elem_of_seq.
  split; intros [? ?]; (split; [done || lia|done || lia]).
Qed.

Lemma cleaned_columns d :
  columns (cleaned d)
  = (λ kv : string * column,
       (kv.1, gather_col (complete_rows (ffill d)) (ffill_col kv.2))) <$> columns d.
Proof.
  unfold cleaned, dropna, take_rows, ffill. simpl.
  by rewrite <-list_fmap_compose.
Qed.

Lemma cleaned_index d :
  index (cleaned d) = gather (complete_rows (ffill d)) (index d).
Proof. done. Qed.

Lemma cleaned_names d : col_names (cleaned d) = col_names d.
Proof.
  unfold col_names. rewrite cleaned_columns. by rewrite <-list_fmap_compose.
Qed.

Lemma cleaned_lookup d c xs :
  col_lookup c (columns d) = Some (FloatCol xs) →
  col_lookup c (columns (cleaned d))
  = Some (FloatCol (gather (complete_rows (ffill d)) (ffill_from NaN xs))).
Proof.
  intros Hc. rewrite cleaned_columns.
  rewrite (col_lookup_fmap (λ v, gather_col (complete_rows (ffill d)) (ffill_col v))).
  by rewrite Hc.
Qed.

Lemma cleaned_lookup_None d c :
  col_lookup c (columns d) = None → col_lookup c (columns (cleaned d)) = None.
Proof.
  intros Hc. rewrite cleaned_columns.
  rewrite (col_lookup_fmap (λ v, gather_col (complete_rows (ffill d)) (ffill_col v))).
  by rewrite Hc.
Qed.

(** A row that [dropna] keeps holds a value in every numeric column. *)
Lemma complete_row_value d c xs i :
  col_lookup c (columns d) = Some (FloatCol xs) →
  length xs = length (index d) →
  i ∈ complete_rows (ffill d) →
  ∃ v, ffill_from NaN xs !! i = Some (Fin v).
Proof.
  intros Hc Hlen [Hi Hrow]%complete_rows_spec.
  unfold row_notna in Hrow. rewrite forallb_forall in Hrow.
  specialize (Hrow (c, ffill_col (FloatCol xs))). simpl in Hrow.
  destruct (lookup_lt_is_Some_2 (ffill_from NaN xs) i) as [x Hx].
  { rewrite length_ffill_from. simpl in Hi. lia. }
  rewrite Hx in *. destruct x as [|v]; [|by exists v].
  discriminate Hrow.
  apply list_elem_of_In. unfold ffill; simpl.
  apply list_elem_of_fmap. exists (c, FloatCol xs). split; [done|].
  by apply col_lookup_Some_elem.
Qed.

Lemma length_net_liquidity w t r n :
  length w = n → length t = n → length r = n →
  length (net_liquidity w t r) = n.
Proof.
  intros. unfold net_liquidity. rewrite length_fmap, !length_zip_with. lia.
Qed.

Lemma net_liquidity_lookup w t r i (a b e : R) :
  w !! i = Some (Fin a) → t !! i = Some (Fin b) → r !! i = Some (Fin e) →
  net_liquidity w t r !! i = Some (Fin ((a - b - e) / 1000)).
Proof.
  intros Hw Ht Hr. unfold net_liquidity.
  rewrite list_lookup_fmap, !lookup_zip_with, Hw. simpl.
  rewrite Ht. simpl. rewrite Hr. simpl.
  by rewrite decide_False by lra.
Qed.

Lemma fred_try_unfold d :
  fred_try (Some d) =
    (walcl ← col_lookup "WALCL" (columns (cleaned d));
     wtregen ← col_lookup "WTREGEN" (columns (cleaned d));
     diff ← col_sub walcl wtregen;
     rrp ← col_lookup "RRPONTSYD" (columns (cleaned d));
     diff ← col_sub diff rrp;
     net ← col_div_scalar diff 1000;
     Some (mkDataFrame (index (cleaned d))
             (col_set "Net_Liquidity" net (columns (cleaned d))))).
Proof. reflexivity. Qed.

(** Whatever the first [try] hands on carries a net liquidity column. *)
Lemma fred_try_has_liquidity fred fred_data :
  fred_try fred = Some fred_data →
  ∃ net, col_lookup "Net_Liquidity" (columns fred_data) = Some net.
Proof.
  destruct fred as [d|]; [|done]. rewrite fred_try_unfold.
  destruct (col_lookup "WALCL" _) as [walcl|]; [|done].
  destruct (col_lookup "WTREGEN" _) as [wtregen|]; [|done]. csimpl.
  destruct (col_sub walcl wtregen) as [diff|]; [|done]. csimpl.
  destruct (col_lookup "RRPONTSYD" _) as [rrp|]; [|done]. csimpl.
  destruct (col_sub diff rrp) as [diff'|]; [|done]. csimpl.
  destruct (col_div_scalar diff' 1000) as [net|]; [|done]. csimpl.
  intros [= <-]. exists net. apply col_lookup_set_eq.
Qed.

Lemma fred_try_Some d w t r :
  col_lookup "WALCL" (columns d) = Some (FloatCol w) →
  col_lookup "WTREGEN" (columns d) = Some (FloatCol t) →
  col_lookup "RRPONTSYD" (columns d) = Some (FloatCol r) →
  fred_try (Some d) =
    Some (mkDataFrame (index (cleaned d))
            (col_set "Net_Liquidity"
               (FloatCol
                  (net_liquidity
                     (gather (complete_rows (ffill d)) (ffill_from NaN w))
                     (gather (complete_rows (ffill d)) (ffill_from NaN t))
                     (gather (complete_rows (ffill d)) (ffill_from NaN r))))
               (columns (cleaned d)))).
Proof.
  intros Hw Ht Hr. rewrite fred_try_unfold.
  rewrite (cleaned_lookup _ _ _ Hw), (cleaned_lookup _ _ _ Ht),
    (cleaned_lookup _ _ _ Hr).
  reflexivity.
Qed.

Lemma fred_try_missing d c :
  c ∈ ["WALCL"; "WTREGEN"; "RRPONTSYD"] → c ∉ col_names d →
  fred_try (Some d) = None.
Proof.
  intros Hc Hnot. apply col_lookup_None, cleaned_lookup_None in Hnot.
  rewrite fred_try_unfold.
  repeat (apply elem_of_cons in Hc as [->|Hc]); [..|by apply elem_of_nil in Hc].
  - by rewrite Hnot.
  - rewrite Hnot. by destruct (col_lookup "WALCL" _).
  - rewrite Hnot. destruct (col_lookup "WALCL" _); [csimpl|done].
    destruct (col_lookup "WTREGEN" _) as [wt|]; [csimpl|done].
    by destruct (col_sub _ wt).
Qed.

(** The columns that carry one label. *)
Lemma filter_label_elem c v cols :
  col_lookup c cols = Some v → filter (λ kv : string * column, kv.1 = c) cols ≠ [].
Proof.
  intros Hc%col_lookup_Some_elem Hnil.
  assert ((c, v) ∈ filter (λ kv : string * column, kv.1 = c) cols) as Hin
    by (by apply list_elem_of_filter).
  rewrite Hnil in Hin. by apply elem_of_nil in Hin.
Qed.

Lemma filter_label_none c cols :
  c ∉ cols.*1 → filter (λ kv : string * column, kv.1 = c) cols = [].
Proof.
  induction cols as [|[k v] cols IH]; csimpl; [done|].
  intros [Hne Hnot]%not_elem_of_cons.
  rewrite filter_cons_False by (simpl; congruence). by apply IH.
Qed.

Lemma filter_label_unique c v cols :
  NoDup cols.*1 → col_lookup c cols = Some v →
  filter (λ kv : string * column, kv.1 = c) cols = [(c, v)].
Proof.
  induction cols as [|[k w] cols IH]; csimpl; [done|].
  intros [Hk Hnd]%NoDup_cons. destruct (decide (k = c)) as [->|Hne].
  - intros [= ->]. rewrite filter_cons_True by done.
    by rewrite filter_label_none.
  - intros Hc. rewrite filter_cons_False by done. by apply IH.
Qed.

Lemma select_label_One c cols v :
  select_label c cols = OneColumn v →
  filter (λ kv : string * column, kv.1 = c) cols = [(c, v)].
Proof.
  unfold select_label.
  destruct (filter _ cols) as [|[k w] [|]] eqn:Hf; try done.
  intros [= <-].
  assert ((k, w) ∈ filter (λ kv : string * column, kv.1 = c) cols) as Hin
    by (rewrite Hf; left).
  apply list_elem_of_filter in Hin as [Hk _]. simpl in Hk. by subst.
Qed.

Lemma select_columns_Some c d :
  (∃ cols, select_columns c d = Some (mkDataFrame (index d) cols))
  ↔ c ∈ col_names d.
Proof.
  unfold select_columns, col_names. split.
  - intros [cols Hsel].
    destruct (decide (c ∈ (columns d).*1)) as [|Hnot]; [done|].
    by rewrite filter_label_none in Hsel.
  - intros Hin.
    destruct (col_lookup c (columns d)) as [v|] eqn:Hc;
      [|by apply col_lookup_None in Hc].
    apply filter_label_elem in Hc.
    destruct (filter _ (columns d)) as [|kv cols]; [done|]. by eexists.
Qed.

Lemma btc_try_Some y cs :
  select_label "Close" (level0_columns y) = OneColumn (FloatCol cs) →
  btc_try (Some y) = Some (mkDataFrame (yf_index y) [("Close", FloatCol cs)]).
Proof.
  intros Hsel%select_label_One. unfold btc_try, select_columns. simpl.
  by rewrite Hsel.
Qed.

Lemma positions_of_spec (date : Z) (ri : list Z) j :
  j ∈ positions_of date ri ↔ ri !! j = Some date.
Proof.
  unfold positions_of. rewrite list_elem_of_filter, elem_of_seq.
  split; [by intros [? _]|]. intros Hj. split; [done|].
  apply lookup_lt_Some in Hj. lia.
Qed.

(** Every joined pair names a left row and a right row of one date. *)
Lemma join_from_spec i (li ri : list Z) p :
  p ∈ join_from i li ri →
  ∃ date, i ≤ p.1 ∧ li !! (p.1 - i) = Some date ∧ ri !! p.2 = Some date.
Proof.
  revert i. induction li as [|date li IH]; intros i; simpl;
    [by intros ?%elem_of_nil|].
  rewrite elem_of_app. intros [Hp|Hp].
  - apply list_elem_of_fmap in Hp as (j & -> & Hj%positions_of_spec).
    exists date. simpl. split; [done|]. by rewrite Nat.sub_diag.
  - destruct (IH _ Hp) as (date' & Hi & Hl & Hr). exists date'.
    split; [lia|]. split; [|done].
    by replace (p.1 - i) with (S (p.1 - S i)) by lia.
Qed.

Lemma joined_spec d y p :
  p ∈ joined d y →
  ∃ date, index (cleaned d) !! p.1 = Some date ∧ yf_index y !! p.2 = Some date.
Proof.
  intros (date & _ & Hl & Hr)%join_from_spec. exists date.
  by rewrite Nat.sub_0_r in Hl.
Qed.

Lemma joined_left_bound d y (A : Type) (l : list A) :
  length l = length (index (cleaned d)) →
  Forall (λ i, i < length l) (joined d y).*1.
Proof.
  intros Hlen. apply Forall_fmap, Forall_forall. intros p Hp. simpl.
  destruct (joined_spec _ _ _ Hp) as (date & Hl%lookup_lt_Some & _). lia.
Qed.

Lemma joined_right_bound d y (A : Type) (l : list A) :
  length l = length (yf_index y) →
  Forall (λ j, j < length l) (joined d y).*2.
Proof.
  intros Hlen. apply Forall_fmap, Forall_forall. intros p Hp. simpl.
  destruct (joined_spec _ _ _ Hp) as (date & _ & Hr%lookup_lt_Some). lia.
Qed.

Lemma complete_rows_bound d (A : Type) (l : list A) :
  length l = length (index d) →
  Forall (λ i, i < length l) (complete_rows (ffill d)).
Proof.
  intros Hlen. apply Forall_forall. intros i [Hi _]%complete_rows_spec.
  simpl in Hi. lia.
Qed.

Lemma length_cleaned_index d :
  length (index (cleaned d)) = length (complete_rows (ffill d)).
Proof. rewrite cleaned_index. by apply length_gather, complete_rows_bound. Qed.

Lemma length_clean_series d xs :
  length xs = length (index d) →
  length (clean_series d xs) = length (index (cleaned d)).
Proof.
  intros Hlen. rewrite length_cleaned_index. unfold clean_series.
  apply length_gather, complete_rows_bound. by rewrite length_ffill_from.
Qed.

(** A successful call, computed. *)
Lemma get_market_data_Fetched d y w t r cs :
  NoDup (col_names d) →
  col_lookup "WALCL" (columns d) = Some (FloatCol w) →
  col_lookup "WTREGEN" (columns d) = Some (FloatCol t) →
  col_lookup "RRPONTSYD" (columns d) = Some (FloatCol r) →
  select_label "Close" (level0_columns y) = OneColumn (FloatCol cs) →
  get_market_data (Some d) (Some y) = Fetched (fetched_frame d y w t r cs).
Proof.
  intros Hnd Hw Ht Hr Hcs. unfold get_market_data.
  rewrite (fred_try_Some _ _ _ _ Hw Ht Hr), (btc_try_Some _ _ Hcs).
  unfold select_columns at 1. cbn [columns index].
  erewrite filter_label_unique; [| |apply col_lookup_set_eq]; [reflexivity|].
  apply col_set_NoDup. by rewrite <-cleaned_names in Hnd.
Qed.

Lemma fetched_frame_wf d y w t r cs :
  wf d →
  col_lookup "WALCL" (columns d) = Some (FloatCol w) →
  col_lookup "WTREGEN" (columns d) = Some (FloatCol t) →
  col_lookup "RRPONTSYD" (columns d) = Some (FloatCol r) →
  length cs = length (yf_index y) →
  wf (fetched_frame d y w t r cs).
Proof.
  intros Hwf Hw Ht Hr Hcs.
  pose proof (wf_col_length _ _ _ Hwf Hw) as Hlw.
  pose proof (wf_col_length _ _ _ Hwf Ht) as Hlt.
  pose proof (wf_col_length _ _ _ Hwf Hr) as Hlr. simpl in Hlw, Hlt, Hlr.
  split.
  - apply (bool_decide_unpack _). by vm_compute.
  - unfold fetched_frame. cbn [columns index].
    rewrite (length_gather _ (index (cleaned d))) by by apply joined_left_bound.
    repeat constructor; cbn [snd col_length].
    + rewrite length_gather, !length_fmap; [done|].
      apply joined_left_bound, length_net_liquidity;
        by apply length_clean_series.
    + rewrite length_gather, !length_fmap; [done|].
      by apply joined_right_bound.
Qed.

Lemma close_column_length y cs :
  aligned (flattened y) →
  select_label "Close" (level0_columns y) = OneColumn (FloatCol cs) →
  length cs = length (yf_index y).
Proof.
  intros Hal Hsel%select_label_One. unfold aligned in Hal.
  rewrite Forall_forall in Hal.
  apply (Hal ("Close", FloatCol cs)).
  assert (("Close", FloatCol cs)
          ∈ filter (λ kv : string * column, kv.1 = "Close") (level0_columns y))
    as Hin by (rewrite Hsel; left).
  by apply list_elem_of_filter in Hin as [_ ?].
Qed.

(** X11: no failure of a fetch leaves [get_market_data] as an exception:
    whatever well-formed frames the two providers hand back (or whether they
    raise), the call returns a frame or None.  The selection of the net
    liquidity column before the merge stands outside both [try] blocks, and
    it cannot fail, because the first block has assigned that column. *)
Theorem market_data_failure_is_returned fred btc :
  (∀ d, fred = Some d → wf d) →
  (∀ y, btc = Some y → wf (flattened y)) →
  get_market_data fred btc ≠ Escaped.
Proof.
  intros _ _.
  unfold get_market_data. destruct (fred_try fred) as [fd|] eqn:Hf; [|done].
  destruct (btc_try btc); [|done].
  destruct (fred_try_has_liquidity _ _ Hf) as [net Hnet].
  apply filter_label_elem in Hnet. unfold select_columns.
  by destruct (filter _ (columns fd)).
Qed.

Lemma btc_sample_wf : wf (flattened btc_sample).
Proof.
  split; [|repeat constructor].
  apply (bool_decide_unpack _). by vm_compute.
Qed.

Lemma market_data_failure_is_returned_witness :
  get_market_data (Some fred_sample) (Some btc_sample) ≠ Escaped.
Proof.
  apply (market_data_failure_is_returned (Some fred_sample) (Some btc_sample)).
  - intros d [= <-]. apply fred_sample_wf.
  - intros y [= <-]. apply btc_sample_wf.
Defined.

(** X12: with the three FRED series in a well-formed frame and one [Close]
    column in the price download, [get_market_data] returns a frame of
    exactly the two columns Net_Liquidity and BTC_Price, well formed, and
    [calculate_signal] runs on it without an exception. *)
Theorem fetched_frame_feeds_the_engine d y w t r cs :
  wf d →
  col_lookup "WALCL" (columns d) = Some (FloatCol w) →
  col_lookup "WTREGEN" (columns d) = Some (FloatCol t) →
  col_lookup "RRPONTSYD" (columns d) = Some (FloatCol r) →
  aligned (flattened y) →
  select_label "Close" (level0_columns y) = OneColumn (FloatCol cs) →
  ∃ df, get_market_data (Some d) (Some y) = Fetched df ∧
        col_names df = ["Net_Liquidity"; "BTC_Price"] ∧
        wf df ∧
        (calculate_signal df).1 = Ok ().
Proof.
  intros Hwf Hw Ht Hr Hal Hcs. exists (fetched_frame d y w t r cs).
  assert (wf (fetched_frame d y w t r cs)) as Hwf'.
  { apply fetched_frame_wf; [done..|]. by apply close_column_length. }
  split; [apply get_market_data_Fetched; [apply Hwf|done..]|].
  split; [done|]. split; [done|].
  by erewrite calculate_signal_snd.
Qed.

Lemma btc_sample_aligned : aligned (flattened btc_sample).
Proof. repeat constructor. Qed.

Lemma fetched_frame_feeds_the_engine_witness :
  ∃ df, get_market_data (Some fred_sample) (Some btc_sample) = Fetched df ∧
        col_names df = ["Net_Liquidity"; "BTC_Price"] ∧
        wf df ∧
        (calculate_signal df).1 = Ok ().
Proof.
  eapply (fetched_frame_feeds_the_engine fred_sample btc_sample);
    [apply fred_sample_wf|reflexivity..|apply btc_sample_aligned
    |reflexivity].
Defined.

(** X13: every row of the fetched frame pairs a FRED row and a price row of
    the same date: its liquidity is (WALCL - WTREGEN - RRPONTSYD) / 1000 on
    the forward-filled values of that date, all three of them present, and
    its price is the close of that date. *)
Theorem fetched_rows_pair_equal_dates d y w t r cs df k date :
  wf d →
  col_lookup "WALCL" (columns d) = Some (FloatCol w) →
  col_lookup "WTREGEN" (columns d) = Some (FloatCol t) →
  col_lookup "RRPONTSYD" (columns d) = Some (FloatCol r) →
  aligned (flattened y) →
  select_label "Close" (level0_columns y) = OneColumn (FloatCol cs) →
  get_market_data (Some d) (Some y) = Fetched df →
  index df !! k = Some date →
  ∃ i j (a b e : R) p,
    index d !! i = Some date ∧ yf_index y !! j = Some date ∧
    ffill_from NaN w !! i = Some (Fin a) ∧
    ffill_from NaN t !! i = Some (Fin b) ∧
    ffill_from NaN r !! i = Some (Fin e) ∧
    cs !! j = Some p ∧
    row_at df k "Net_Liquidity" = Ok (CFloat (Fin ((a - b - e) / 1000))) ∧
    row_at df k "BTC_Price" = Ok (CFloat p).
Proof.
  intros Hwf Hw Ht Hr Hal Hcs Hget Hk.
  rewrite (get_market_data_Fetched d y w t r cs) in Hget by (done || apply Hwf).
  injection Hget as <-.
  pose proof (wf_col_length _ _ _ Hwf Hw) as Hlw.
  pose proof (wf_col_length _ _ _ Hwf Ht) as Hlt.
  pose proof (wf_col_length _ _ _ Hwf Hr) as Hlr. simpl in Hlw, Hlt, Hlr.
  pose proof (close_column_length _ _ Hal Hcs) as Hlcs.
  assert (length (net_liquidity (clean_series d w) (clean_series d t)
                    (clean_series d r)) = length (index (cleaned d))) as Hlnet
    by (apply length_net_liquidity; by apply length_clean_series).
  unfold fetched_frame in Hk. cbn [index] in Hk.
  rewrite gather_lookup in Hk by by apply joined_left_bound.
  rewrite list_lookup_fmap in Hk.
  destruct (joined d y !! k) as [[i' j]|] eqn:Hp; [|done].
  change (index (cleaned d) !! i' = Some date) in Hk.
  destruct (joined_spec d y (i', j)) as (date' & Hl & Hj);
    [by eapply list_elem_of_lookup_2|].
  cbn [fst snd] in Hl, Hj. rewrite Hk in Hl. injection Hl as <-.
  rewrite cleaned_index, gather_lookup in Hk by by apply complete_rows_bound.
  destruct (complete_rows (ffill d) !! i') as [i|] eqn:Hi; [|done].
  change (index d !! i = Some date) in Hk.
  assert (i ∈ complete_rows (ffill d)) as Hin
    by (by eapply list_elem_of_lookup_2).
  destruct (complete_row_value d _ w i Hw Hlw Hin) as [a Ha].
  destruct (complete_row_value d _ t i Ht Hlt Hin) as [b Hb].
  destruct (complete_row_value d _ r i Hr Hlr Hin) as [e He].
  destruct (lookup_lt_is_Some_2 cs j) as [p Hpj].
  { rewrite Hlcs. by eapply lookup_lt_Some. }
  assert (∀ xs v, length xs = length (index d) →
            ffill_from NaN xs !! i = Some v →
            clean_series d xs !! i' = Some v) as Hclean.
  { intros xs v Hlen Hv. unfold clean_series.
    rewrite gather_lookup, Hi; [done|].
    apply complete_rows_bound. by rewrite length_ffill_from. }
  exists i, j, a, b, e, p. repeat split; try done.
  - eapply row_at_float; [reflexivity|].
    rewrite gather_lookup by by apply joined_left_bound.
    rewrite list_lookup_fmap, Hp. simpl.
    apply net_liquidity_lookup; by apply Hclean.
  - eapply row_at_float; [reflexivity|].
    rewrite gather_lookup by by apply joined_right_bound.
    by rewrite list_lookup_fmap, Hp.
Qed.

Lemma fetched_rows_pair_equal_dates_witness :
  ∃ i j (a b e : R) p,
    index fred_sample !! i = Some 3%Z ∧ yf_index btc_sample !! j = Some 3%Z ∧
    ffill_from NaN [NaN; Fin 7000000; NaN; NaN; Fin 7100000; NaN] !! i
    = Some (Fin a) ∧
    ffill_from NaN [NaN; Fin 500000; NaN; NaN; Fin 600000; NaN] !! i
    = Some (Fin b) ∧
    ffill_from NaN [Fin 2000; Fin 2100; NaN; Fin 1900; Fin 1800; Fin 1700] !! i
    = Some (Fin e) ∧
    [Fin 100; Fin 101; Fin 102; Fin 103; Fin 104] !! j = Some p ∧
    row_at (fetched_frame fred_sample btc_sample
              [NaN; Fin 7000000; NaN; NaN; Fin 7100000; NaN]
              [NaN; Fin 500000; NaN; NaN; Fin 600000; NaN]
              [Fin 2000; Fin 2100; NaN; Fin 1900; Fin 1800; Fin 1700]
              [Fin 100; Fin 101; Fin 102; Fin 103; Fin 104]) 0 "Net_Liquidity"
    = Ok (CFloat (Fin ((a - b - e) / 1000))) ∧
    row_at (fetched_frame fred_sample btc_sample
              [NaN; Fin 7000000; NaN; NaN; Fin 7100000; NaN]
              [NaN; Fin 500000; NaN; NaN; Fin 600000; NaN]
              [Fin 2000; Fin 2100; NaN; Fin 1900; Fin 1800; Fin 1700]
              [Fin 100; Fin 101; Fin 102; Fin 103; Fin 104]) 0 "BTC_Price"
    = Ok (CFloat p).
Proof.
  apply (fetched_rows_pair_equal_dates fred_sample btc_sample _ _ _ _ _ 0 3%Z);
    [apply fred_sample_wf|reflexivity..|apply btc_sample_aligned
    |reflexivity| |reflexivity].
  apply get_market_data_Fetched; [|reflexivity..].
  apply (bool_decide_unpack _). by vm_compute.
Defined.

(** With unique dates on the right, a date of the left is joined once if
    the right has it, and not at all otherwise. *)
Lemma positions_of_NoDup (date : Z) (ri : list Z) :
  NoDup ri →
  (date ∈ ri ∧ (∃ j, positions_of date ri = [j]))
  ∨ ((date ∉ ri) ∧ positions_of date ri = []).
Proof.
  intros Hnd. destruct (positions_of date ri) as [|p [|q rest]] eqn:Hpos.
  - right. split; [|done]. intros (j & Hj)%list_elem_of_lookup_1.
    apply positions_of_spec in Hj. rewrite Hpos in Hj.
    by apply elem_of_nil in Hj.
  - left. split; [|by exists p].
    apply (list_elem_of_lookup_2 _ p), positions_of_spec. rewrite Hpos. left.
  - exfalso.
    assert (NoDup (positions_of date ri)) as Hnd'
      by apply NoDup_filter, NoDup_seq.
    assert (ri !! p = Some date) as Hp
      by (apply positions_of_spec; rewrite Hpos; left).
    assert (ri !! q = Some date) as Hq
      by (apply positions_of_spec; rewrite Hpos; right; left).
    rewrite Hpos in Hnd'. apply NoDup_cons in Hnd' as [Hne _].
    apply Hne. rewrite (NoDup_lookup ri p q date Hnd Hp Hq). left.
Qed.

Lemma join_from_dates i (pre li ri : list Z) :
  NoDup ri → length pre = i →
  gather (join_from i li ri).*1 (pre ++ li) = filter (λ date, date ∈ ri) li.
Proof.
  intros Hnd. revert i pre. induction li as [|date li IH]; intros i pre Hpre;
    simpl; [done|].
  assert (gather (join_from (S i) li ri).*1 (pre ++ date :: li)
          = filter (λ date, date ∈ ri) li) as Htail.
  { rewrite (cons_middle date pre li), (assoc_L (++)).
    apply IH. rewrite length_app. simpl. lia. }
  rewrite fmap_app. unfold gather in *. rewrite omap_app, Htail.
  destruct (positions_of_NoDup date ri Hnd) as [[Hin [j ->]]|[Hnot ->]].
  - rewrite filter_cons_True by done. csimpl.
    by rewrite list_lookup_middle.
  - by rewrite filter_cons_False.
Qed.

Lemma fetched_frame_index d y w t r cs :
  NoDup (yf_index y) →
  index (fetched_frame d y w t r cs)
  = filter (λ date, date ∈ yf_index y) (index (cleaned d)).
Proof.
  intros Hnd.
  apply (join_from_dates 0 [] (index (cleaned d)) (yf_index y) Hnd eq_refl).
Qed.

(** X14: with unique dates in both downloads, the dates of the fetched
    frame are the dates of the cleaned FRED frame for which a price exists,
    in the order of the FRED frame, each once. *)
Theorem fetched_dates_are_the_common_dates d y w t r cs df :
  wf d → NoDup (index d) →
  col_lookup "WALCL" (columns d) = Some (FloatCol w) →
  col_lookup "WTREGEN" (columns d) = Some (FloatCol t) →
  col_lookup "RRPONTSYD" (columns d) = Some (FloatCol r) →
  select_label "Close" (level0_columns y) = OneColumn (FloatCol cs) →
  NoDup (yf_index y) →
  get_market_data (Some d) (Some y) = Fetched df →
  index df = filter (λ date, date ∈ yf_index y) (index (dropna (ffill d))).
Proof.
  intros Hwf _ Hw Ht Hr Hcs Hnd Hget.
  rewrite (get_market_data_Fetched d y w t r cs) in Hget by (done || apply Hwf).
  injection Hget as <-. by apply fetched_frame_index.
Qed.

Lemma fetched_dates_are_the_common_dates_witness :
  index (fetched_frame fred_sample btc_sample
           [NaN; Fin 7000000; NaN; NaN; Fin 7100000; NaN]
           [NaN; Fin 500000; NaN; NaN; Fin 600000; NaN]
           [Fin 2000; Fin 2100; NaN; Fin 1900; Fin 1800; Fin 1700]
           [Fin 100; Fin 101; Fin 102; Fin 103; Fin 104])
  = filter (λ date, date ∈ yf_index btc_sample)
      (index (dropna (ffill fred_sample))).
Proof.
  apply (fetched_dates_are_the_common_dates fred_sample btc_sample
           [NaN; Fin 7000000; NaN; NaN; Fin 7100000; NaN]
           [NaN; Fin 500000; NaN; NaN; Fin 600000; NaN]
           [Fin 2000; Fin 2100; NaN; Fin 1900; Fin 1800; Fin 1700]
           [Fin 100; Fin 101; Fin 102; Fin 103; Fin 104]);
    [apply fred_sample_wf| |reflexivity..| |].
  - apply (bool_decide_unpack _). by vm_compute.
  - apply (bool_decide_unpack _). by vm_compute.
  - apply get_market_data_Fetched; [|reflexivity..].
    apply (bool_decide_unpack _). by vm_compute.
Defined.

Lemma numeric_lookup d c :
  numeric d → c ∈ col_names d →
  ∃ xs, col_lookup c (columns d) = Some (FloatCol xs).
Proof.
  intros Hnum Hc. destruct (col_lookup c (columns d)) as [v|] eqn:Hv;
    [|by apply col_lookup_None in Hv].
  unfold numeric in Hnum. rewrite Forall_forall in Hnum.
  destruct (Hnum _ (col_lookup_Some_elem _ _ _ Hv)) as [xs Hxs].
  simpl in Hxs. subst v. by exists xs.
Qed.

(** X15: on a well-formed numeric FRED frame and a price download,
    [get_market_data] returns None exactly when one of the three series is
    missing from the FRED frame or the download has no [Close] column. *)
Theorem fetch_fails_exactly_when d y :
  wf d → numeric d →
  get_market_data (Some d) (Some y) = ReturnedNone ↔
    (∃ c, c ∈ ["WALCL"; "WTREGEN"; "RRPONTSYD"] ∧ c ∉ col_names d)
    ∨ "Close" ∉ col_names (flattened y).
Proof.
  intros Hwf Hnum. split.
  - intros Hnone.
    destruct (decide ("WALCL" ∈ col_names d)) as [Hw|Hw];
      [|left; exists "WALCL"; split; [labels|done]].
    destruct (decide ("WTREGEN" ∈ col_names d)) as [Ht|Ht];
      [|left; exists "WTREGEN"; split; [labels|done]].
    destruct (decide ("RRPONTSYD" ∈ col_names d)) as [Hr|Hr];
      [|left; exists "RRPONTSYD"; split; [labels|done]].
    destruct (decide ("Close" ∈ col_names (flattened y))) as [Hc|Hc];
      [|by right].
    exfalso.
    destruct (numeric_lookup _ _ Hnum Hw) as [w Hw'].
    destruct (numeric_lookup _ _ Hnum Ht) as [t Ht'].
    destruct (numeric_lookup _ _ Hnum Hr) as [r Hr'].
    apply select_columns_Some in Hc as [cols Hc].
    unfold get_market_data in Hnone.
    rewrite (fred_try_Some _ _ _ _ Hw' Ht' Hr') in Hnone.
    unfold btc_try in Hnone. simpl in Hc, Hnone. rewrite Hc in Hnone.
    by destruct (select_columns "Net_Liquidity" _).
  - intros [(c & Hc & Hnot)|Hclose]; unfold get_market_data.
    + by rewrite (fred_try_missing _ _ Hc Hnot).
    + assert (btc_try (Some y) = None) as ->.
      { unfold btc_try, select_columns. simpl.
        by rewrite filter_label_none. }
      by destruct (fred_try (Some d)).
Qed.

Lemma fetch_fails_exactly_when_witness :
  get_market_data (Some fred_sample) (Some btc_sample) = ReturnedNone ↔
    (∃ c, c ∈ ["WALCL"; "WTREGEN"; "RRPONTSYD"] ∧ c ∉ col_names fred_sample)
    ∨ "Close" ∉ col_names (flattened btc_sample).
Proof.
  apply (fetch_fails_exactly_when fred_sample btc_sample);
    [apply fred_sample_wf|].
  repeat constructor; eexists; reflexivity.
Defined.



(** The net liquidity of a fetched frame has no missing value. *)
Lemma clean_series_finite d c xs x :
  col_lookup c (columns d) = Some (FloatCol xs) →
  length xs = length (index d) →
  x ∈ clean_series d xs → ∃ v, x = Fin v.
Proof.
  intros Hc Hlen (i & Hi & Hx)%elem_of_gather.
  destruct (complete_row_value d c xs i Hc Hlen Hi) as [v Hv].
  exists v. congruence.
Qed.

Lemma lookup_finite xs i :
  (∀ x, x ∈ xs → ∃ v, x = Fin v) → i < length xs →
  ∃ v, xs !! i = Some (Fin v).
Proof.
  intros Hall Hi. destruct (lookup_lt_is_Some_2 xs i Hi) as [x Hx].
  destruct (Hall x) as [v ->]; [by eapply list_elem_of_lookup_2|]. by exists v.
Qed.

Lemma net_liquidity_finite w t r x :
  (∀ x, x ∈ w → ∃ v, x = Fin v) →
  (∀ x, x ∈ t → ∃ v, x = Fin v) →
  (∀ x, x ∈ r → ∃ v, x = Fin v) →
  x ∈ net_liquidity w t r → ∃ v, x = Fin v.
Proof.
  intros Hw Ht Hr (i & Hi)%list_elem_of_lookup_1.
  pose proof (lookup_lt_Some _ _ _ Hi) as Hlt.
  unfold net_liquidity in Hlt. rewrite length_fmap, !length_zip_with in Hlt.
  destruct (lookup_finite w i Hw) as [a Ha]; [lia|].
  destruct (lookup_finite t i Ht) as [b Hb]; [lia|].
  destruct (lookup_finite r i Hr) as [e He]; [lia|].
  rewrite (net_liquidity_lookup _ _ _ _ _ _ _ Ha Hb He) in Hi.
  eexists. by injection Hi as <-.
Qed.

Lemma finite_values xs :
  (∀ x, x ∈ xs → ∃ v, x = Fin v) → ∃ rs : list R, xs = Fin <$> rs.
Proof.
  induction xs as [|x xs IH]; intros Hall; [by exists []|].
  destruct (Hall x) as [v ->]; [left|].
  destruct IH as [rs ->]; [intros x Hx; apply Hall; by right|].
  by exists (v :: rs).
Qed.

(** X17: dropping the incomplete FRED rows before the subtraction keeps
    every missing value out of the engine's liquidity input: on a fetched
    frame each row has a net liquidity, and from the twentieth row on each
    row has its 20-row average, so the liquidity trend of such a row is a
    comparison of two numbers. *)
Theorem fetched_liquidity_is_never_missing d y w t r cs df out i :
  wf d →
  col_lookup "WALCL" (columns d) = Some (FloatCol w) →
  col_lookup "WTREGEN" (columns d) = Some (FloatCol t) →
  col_lookup "RRPONTSYD" (columns d) = Some (FloatCol r) →
  aligned (flattened y) →
  select_label "Close" (level0_columns y) = OneColumn (FloatCol cs) →
  get_market_data (Some d) (Some y) = Fetched df →
  calculate_signal df = (Ok (), out) →
  i < length (index df) →
  (∃ liq, row_at out i "Net_Liquidity" = Ok (CFloat (Fin liq))) ∧
  (19 ≤ i → ∃ sma, row_at out i "Liq_SMA_20" = Ok (CFloat (Fin sma))).
Proof.
  intros Hwf Hw Ht Hr Hal Hcs Hget Hrun Hi.
  rewrite (get_market_data_Fetched d y w t r cs) in Hget by (done || apply Hwf).
  injection Hget as <-.
  pose proof (wf_col_length _ _ _ Hwf Hw) as Hlw.
  pose proof (wf_col_length _ _ _ Hwf Ht) as Hlt.
  pose proof (wf_col_length _ _ _ Hwf Hr) as Hlr. simpl in Hlw, Hlt, Hlr.
  assert (wf (fetched_frame d y w t r cs)) as Hwf'.
  { apply fetched_frame_wf; [done..|]. by apply close_column_length. }
  destruct (calculate_signal_returns (fetched_frame d y w t r cs) _ _ Hwf'
              eq_refl eq_refl) as (sigs & Hsigs & Hrun').
  rewrite Hrun' in Hrun. injection Hrun as <-.
  set (xs := gather (joined d y).*1
               (net_liquidity (clean_series d w) (clean_series d t)
                  (clean_series d r))) in *.
  assert (∀ x, x ∈ xs → ∃ v, x = Fin v) as Hfin.
  { intros x (i' & _ & Hx)%elem_of_gather.
    apply list_elem_of_lookup_2 in Hx. revert Hx.
    apply net_liquidity_finite; intros x'; by eapply clean_series_finite. }
  assert (length xs = length (index (fetched_frame d y w t r cs))) as Hlen.
  { apply (wf_col_length _ "Net_Liquidity" (FloatCol xs) Hwf' eq_refl). }
  destruct (finite_values xs Hfin) as [rs Hrs].
  split.
  - destruct (lookup_finite xs i Hfin) as [liq Hliq]; [lia|]. exists liq.
    eapply row_at_float; [|exact Hliq].
    rewrite with_signal_lookup_input; [reflexivity|]. labels.
  - intros Hwarm. exists (mean (trailing 20 i rs)).
    eapply row_at_float.
    { rewrite with_signal_lookup_other by done. apply with_indicators_liq_sma. }
    apply roll_mean_complete; [lia|lia|lia|].
    rewrite Hrs. unfold trailing. by rewrite fmap_take, fmap_drop.
Qed.

Lemma fred_month_wf : wf fred_month.
Proof.
  split; [|repeat constructor].
  apply (bool_decide_unpack _). by vm_compute.
Qed.

Lemma month_frame_wf : wf month_frame.
Proof. apply fetched_frame_wf; [apply fred_month_wf|reflexivity..]. Qed.

Lemma fetched_liquidity_is_never_missing_witness :
  (∃ liq, row_at (calculate_signal month_frame).2 24 "Net_Liquidity"
          = Ok (CFloat (Fin liq))) ∧
  (19 ≤ 24 → ∃ sma, row_at (calculate_signal month_frame).2 24 "Liq_SMA_20"
                    = Ok (CFloat (Fin sma))).
Proof.
  apply (fetched_liquidity_is_never_missing fred_month btc_month
           (Fin <$> line 1000 70 25) (Fin <$> line 100 50 25)
           (Fin <$> line 10 20 25) (Fin <$> line 2 100 25) month_frame);
    [apply fred_month_wf|reflexivity..| |reflexivity| | |].
  - repeat constructor.
  - apply get_market_data_Fetched; [|reflexivity..].
    apply (bool_decide_unpack _). by vm_compute.
  - by eapply calculate_signal_snd; [apply month_frame_wf|..].
  - apply (bool_decide_unpack _). by vm_compute.
Defined.
End fetch.
